(** * A shallow embedding of the relay client core

    The JavaScript sources embedded here are [data-store.js] (class
    [DataStore]), [view-state.js] (class [ViewState]), [profile-fetcher.js]
    (class [ProfileFetcher]) and [relay-manager.js] (class [RelayManager]).
    Every class becomes a record of its fields and every method a function
    that takes the record (and the globals it reads through [window]) and
    returns the updated record together with the method's result. *)

From stdpp Require Import gmap strings list sorting pretty.

Local Open Scope string_scope.
Local Open Scope list_scope.
Local Open Scope Z_scope.

(** ** Events and profiles *)

(** A Nostr event as it arrives in an [EVENT] frame. *)
Record Event := mkEvent {
  ev_id : string;
  ev_pubkey : string;
  ev_kind : Z;
  ev_created_at : Z;
  ev_content : string;
  ev_tags : list (list string);
  ev_sig : string
}.

#[global] Instance Event_eq_dec : EqDecision Event.
Proof. solve_decision. Defined.

(** The object stored per pubkey: the parsed kind-0 content spread into an
    object, with [created_at] taken from the carrying event. *)
Record Profile := mkProfile {
  p_fields : gmap string string;
  p_created_at : Z
}.

(** ** JavaScript containers

    [Map] and [Set] iterate in insertion order, and [Array.from] exposes that
    order, so both are kept as lists: a [Map] as a list of entries with
    distinct keys, a [Set] as a list of distinct elements. *)

Section js_containers.
Context {V : Type}.

Fixpoint Map_get (k : string) (m : list (string * V)) : option V :=
  match m with
  | [] => None
  | (k', v) :: m' => if decide (k' = k) then Some v else Map_get k m'
  end.

Definition Map_has (k : string) (m : list (string * V)) : bool :=
  match Map_get k m with Some _ => true | None => false end.

(** [Map.prototype.set]: an existing key keeps its position. *)
Fixpoint Map_set (k : string) (v : V) (m : list (string * V)) : list (string * V) :=
  match m with
  | [] => [(k, v)]
  | (k', v') :: m' =>
      if decide (k' = k) then (k, v) :: m' else (k', v') :: Map_set k v m'
  end.

Definition Map_keys (m : list (string * V)) : list string := m.*1.
Definition Map_values (m : list (string * V)) : list V := m.*2.
End js_containers.

Definition Set_has (x : string) (s : list string) : bool := bool_decide (x ∈ s).

Definition Set_add (x : string) (s : list string) : list string :=
  if Set_has x s then s else s ++ [x].

Definition Set_delete (x : string) (s : list string) : list string :=
  filter (λ y, y ≠ x) s.

(** [Array.prototype.sort(cmp)].  The language standard requires the sort to
    be stable, which together with a consistent comparator fixes the result;
    it is written here as a stable insertion sort: an element is placed in
    front of the first later element [y] with [cmp x y <= 0]. *)
Section Array_sort.
Context {A : Type} (cmp : A → A → Z).

Fixpoint sort_insert (x : A) (l : list A) : list A :=
  match l with
  | [] => [x]
  | y :: l' => if decide (cmp x y ≤ 0) then x :: y :: l' else y :: sort_insert x l'
  end.

Definition Array_sort (l : list A) : list A := foldr sort_insert [] l.
End Array_sort.

(** The comparator [(a, b) => b.created_at - a.created_at]. *)
Definition by_created_at_desc (a b : Event) : Z := ev_created_at b - ev_created_at a.

(** [event.tags.find(t => t[0] === name)?.[1]] *)
Definition tag_value (name : string) (tags : list (list string)) : option string :=
  match list_find (λ t : list string, t !! 0%nat = Some name) tags with
  | Some (_, t) => t !! 1%nat
  | None => None
  end.

(** [ev.tags.some(tag => tag[0] === 'client' && tag[1] === 'flowgazer')] *)
Definition has_flowgazer_tag (ev : Event) : bool :=
  bool_decide (Exists (λ t : list string,
    t !! 0%nat = Some "client" ∧ t !! 1%nat = Some "flowgazer") (ev_tags ev)).

(** The narrowing [ev.kind === 1 && ev.tags.some(...)]. *)
Definition is_flowgazer_post (ev : Event) : bool :=
  bool_decide (ev_kind ev = 1) && has_flowgazer_tag ev.

(** ** data-store.js *)

Module DataStore.

(** [{ reposts, reactions }] *)
Record Counts := mkCounts { reposts : Z; reactions : Z }.

(** The per-tab cursors.  The source initialises them to [Date.now() / 1000]
    and later overwrites them with integral [created_at] seconds; they are
    held here in milliseconds so that both are integers. *)
Record Oldest := mkOldest {
  o_global : Z; o_following : Z; o_myposts : Z; o_likes : Z
}.

Record t := mk {
  events : list (string * Event);
  profiles : gmap string Profile;
  myPostIds : list string;
  receivedLikeIds : list string;
  followingPubkeys : gset string;
  likedByMeIds : gset string;
  reactionCounts : gmap string Counts;
  oldestTimestamps : Oldest
}.

#[global] Instance Counts_eq_dec : EqDecision Counts.
Proof. solve_decision. Defined.

(** [constructor()], with [Date.now()] as [now_ms]. *)
Definition new (now_ms : Z) : t :=
  mk [] ∅ [] [] ∅ ∅ ∅ (mkOldest now_ms now_ms now_ms now_ms).

Section with_globals.
(** [window.NostrTools.verifyEvent], the signature verifier. *)
Variable verifyEvent : Event → bool.
(** [window.nostrAuth?.pubkey]; [None] is [undefined], which is also what a
    missing tag value compares equal to. *)
Variable myPubkey : option string.

Definition updateReactionCount (event : Event) (st : t) : t :=
  match tag_value "e" (ev_tags event) with
  | None => st
  | Some targetId =>
      if decide (targetId = "") then st
      else
        let counts := default (mkCounts 0 0) (reactionCounts st !! targetId) in
        let counts' :=
          if decide (ev_kind event = 6) then mkCounts (reposts counts + 1) (reactions counts)
          else if decide (ev_kind event = 7) then mkCounts (reposts counts) (reactions counts + 1)
          else counts in
        mk (events st) (profiles st) (myPostIds st) (receivedLikeIds st)
           (followingPubkeys st) (likedByMeIds st)
           (<[targetId := counts']> (reactionCounts st)) (oldestTimestamps st)
  end.

Definition categorizeEvent (event : Event) (st : t) : t :=
  let st1 :=
    if decide (ev_kind event = 1 ∧ Some (ev_pubkey event) = myPubkey)
    then mk (events st) (profiles st) (Set_add (ev_id event) (myPostIds st))
            (receivedLikeIds st) (followingPubkeys st) (likedByMeIds st)
            (reactionCounts st) (oldestTimestamps st)
    else st in
  let st2 :=
    if decide (ev_kind event = 7) then
      let sta :=
        if decide (tag_value "p" (ev_tags event) = myPubkey)
        then mk (events st1) (profiles st1) (myPostIds st1)
                (Set_add (ev_id event) (receivedLikeIds st1))
                (followingPubkeys st1) (likedByMeIds st1)
                (reactionCounts st1) (oldestTimestamps st1)
        else st1 in
      let stb :=
        if decide (Some (ev_pubkey event) = myPubkey) then
          match tag_value "e" (ev_tags event) with
          | Some targetEventId =>
              if decide (targetEventId = "") then sta
              else mk (events sta) (profiles sta) (myPostIds sta) (receivedLikeIds sta)
                      (followingPubkeys sta) ({[targetEventId]} ∪ likedByMeIds sta)
                      (reactionCounts sta) (oldestTimestamps sta)
          | None => sta
          end
        else sta in
      updateReactionCount event stb
    else st1 in
  if decide (ev_kind event = 6) then updateReactionCount event st2 else st2.

Definition updateOldestTimestamps (event : Event) (st : t) : t :=
  if decide (ev_kind event ≠ 1 ∧ ev_kind event ≠ 6) then st
  else
    let o := oldestTimestamps st in
    let c := 1000 * ev_created_at event in
    let g := if decide (c < o_global o) then c else o_global o in
    let f :=
      if decide (ev_pubkey event ∈ followingPubkeys st) then
        if decide (c < o_following o) then c else o_following o
      else o_following o in
    let m :=
      if decide (ev_kind event = 1 ∧ Some (ev_pubkey event) = myPubkey) then
        if decide (c < o_myposts o) then c else o_myposts o
      else o_myposts o in
    mk (events st) (profiles st) (myPostIds st) (receivedLikeIds st)
       (followingPubkeys st) (likedByMeIds st) (reactionCounts st)
       (mkOldest g f m (o_likes o)).

Definition addEvent (event : Event) (st : t) : t * bool :=
  if Map_has (ev_id event) (events st) then (st, false)
  else if negb (verifyEvent event) then (st, false)
  else
    let st1 := mk (Map_set (ev_id event) event (events st)) (profiles st)
                  (myPostIds st) (receivedLikeIds st) (followingPubkeys st)
                  (likedByMeIds st) (reactionCounts st) (oldestTimestamps st) in
    (updateOldestTimestamps event (categorizeEvent event st1), true).
End with_globals.

Definition addProfile (pubkey : string) (profileData : Profile) (st : t) : t * bool :=
  match profiles st !! pubkey with
  | Some existing =>
      if decide (p_created_at existing >= p_created_at profileData) then (st, false)
      else (mk (events st) (<[pubkey := profileData]> (profiles st)) (myPostIds st)
               (receivedLikeIds st) (followingPubkeys st) (likedByMeIds st)
               (reactionCounts st) (oldestTimestamps st), true)
  | None =>
      (mk (events st) (<[pubkey := profileData]> (profiles st)) (myPostIds st)
          (receivedLikeIds st) (followingPubkeys st) (likedByMeIds st)
          (reactionCounts st) (oldestTimestamps st), true)
  end.

Definition setFollowingList (pubkeys : list string) (st : t) : t :=
  mk (events st) (profiles st) (myPostIds st) (receivedLikeIds st)
     (list_to_set pubkeys) (likedByMeIds st) (reactionCounts st) (oldestTimestamps st).

(** [getEventsByTab(tab, { flowgazerOnly })].  The ids it looks up come from
    the table's keys or from the category sets, which hold stored ids only
    ([wf] below), so the lookups that find nothing do not occur. *)
Definition getEventsByTab (tab : string) (flowgazerOnly : bool) (st : t) : list Event :=
  let get id := Map_get id (events st) in
  let is_post id :=
    match get id with
    | Some ev => bool_decide (ev_kind ev = 1 ∨ ev_kind ev = 6)
    | None => false
    end in
  let is_followed id :=
    match get id with
    | Some ev => bool_decide (ev_pubkey ev ∈ followingPubkeys st)
    | None => false
    end in
  let is_flowgazer id :=
    match get id with
    | Some ev => is_flowgazer_post ev
    | None => false
    end in
  let selected : option (list string) :=
    if decide (tab = "global") then
      Some (filter (λ id, is_post id = true) (Map_keys (events st)))
    else if decide (tab = "following") then
      Some (filter (λ id, is_post id && is_followed id = true) (Map_keys (events st)))
    else if decide (tab = "myposts") then Some (myPostIds st)
    else if decide (tab = "likes") then Some (receivedLikeIds st)
    else None in
  match selected with
  | None => []
  | Some eventIds =>
      let eventIds' :=
        if flowgazerOnly && negb (bool_decide (tab = "likes")) then
          filter (λ id, is_flowgazer id = true) eventIds
        else eventIds in
      Array_sort by_created_at_desc (omap get eventIds')
  end.

Definition filterByAuthors (evs : list Event) (authorPubkeys : option (list string)) : list Event :=
  match authorPubkeys with
  | None | Some [] => evs
  | Some pks => filter (λ ev, ev_pubkey ev ∈ pks) evs
  end.

Definition getReactionCount (eventId : string) (st : t) : Counts :=
  default (mkCounts 0 0) (reactionCounts st !! eventId).

Definition isLikedByMe (eventId : string) (st : t) : bool :=
  bool_decide (eventId ∈ likedByMeIds st).

(** [clear()], with [Date.now()] as [now_ms]. *)
Definition clear (now_ms : Z) (st : t) : t := new now_ms.

(** [getStats().totalEvents], i.e. [this.events.size]. *)
Definition totalEvents (st : t) : nat := length (events st).

(** *** Call sequences

    The calls a client of the store makes; [AddEvent] carries the value of
    [window.nostrAuth?.pubkey] at the time of the call, and [Clear] the
    clock. *)
Inductive Op :=
  | AddEvent (myPubkey : option string) (event : Event)
  | AddProfile (pubkey : string) (profileData : Profile)
  | SetFollowingList (pubkeys : list string)
  | Clear (now_ms : Z).

Definition step (verifyEvent : Event → bool) (op : Op) (st : t) : t :=
  match op with
  | AddEvent my event => (addEvent verifyEvent my event st).1
  | AddProfile pubkey profileData => (addProfile pubkey profileData st).1
  | SetFollowingList pubkeys => setFollowingList pubkeys st
  | Clear now_ms => clear now_ms st
  end.

Definition run (verifyEvent : Event → bool) (ops : list Op) (st : t) : t :=
  foldl (λ s op, step verifyEvent op s) st ops.

(** An event that counts towards [targetId]: a repost or a reaction whose
    first [e] tag names it. *)
Definition counts_towards (targetId : string) (ev : Event) : Prop :=
  (ev_kind ev = 6 ∨ ev_kind ev = 7) ∧ tag_value "e" (ev_tags ev) = Some targetId.

(** What every sequence of calls maintains. *)
Record wf (verifyEvent : Event → bool) (st : t) : Prop := mk_wf {
  wf_keys : NoDup (Map_keys (events st));
  wf_ids : Forall (λ kv, ev_id kv.2 = kv.1) (events st);
  wf_verified : Forall (λ kv, verifyEvent kv.2 = true) (events st);
  wf_myposts : myPostIds st `sublist_of` Map_keys (events st);
  wf_likes : receivedLikeIds st `sublist_of` Map_keys (events st);
  wf_counts : ∀ targetId, is_Some (reactionCounts st !! targetId) →
                Exists (counts_towards targetId) (Map_values (events st))
}.

(** [getDisplayName(pubkey)]: the profile's [name] when it is a non-empty
    string, otherwise [pubkey.substring(0, 8)] (pubkeys are hexadecimal, so
    characters and code units coincide). *)
Definition getDisplayName (pubkey : string) (st : t) : string :=
  match profiles st !! pubkey with
  | Some profile =>
      match p_fields profile !! "name" with
      | Some name => if decide (name = "") then String.substring 0 8 pubkey else name
      | None => String.substring 0 8 pubkey
      end
  | None => String.substring 0 8 pubkey
  end.

(** [this.oldestTimestamps[tab]] for the four keys the object has. *)
Definition oldest_of (tab : string) (o : Oldest) : option Z :=
  if decide (tab = "global") then Some (o_global o)
  else if decide (tab = "following") then Some (o_following o)
  else if decide (tab = "myposts") then Some (o_myposts o)
  else if decide (tab = "likes") then Some (o_likes o)
  else None.

(** [getOldestTimestamp(tab)], in milliseconds like the cursors, with
    [Date.now()] as [now_ms]; a cursor of [0] is falsy. *)
Definition getOldestTimestamp (tab : string) (now_ms : Z) (st : t) : Z :=
  match oldest_of tab (oldestTimestamps st) with
  | Some c => if decide (c = 0) then now_ms else c
  | None => now_ms
  end.

(** The stored reposts (kind 6) and reactions (kind 7) whose first [e] tag
    names [targetId]. *)
Definition referrers (kind : Z) (targetId : string) (st : t) : list Event :=
  filter (λ ev, ev_kind ev = kind ∧ tag_value "e" (ev_tags ev) = Some targetId)
         (Map_values (events st)).

(** What every sequence of calls maintains about the category sets. *)
Record wf_categories (st : t) : Prop := mk_wf_categories {
  wfc_myposts : ∀ id, id ∈ myPostIds st →
                  ∃ ev, Map_get id (events st) = Some ev ∧ ev_kind ev = 1;
  wfc_likes : ∀ id, id ∈ receivedLikeIds st →
                ∃ ev, Map_get id (events st) = Some ev ∧ ev_kind ev = 7;
  wfc_liked : ∀ id, id ∈ likedByMeIds st →
                id ≠ "" ∧ referrers 7 id st ≠ []
}.

(** A sequence of calls without [clear()]. *)
Definition no_clear (ops : list Op) : Prop :=
  Forall (λ op, match op with Clear _ => False | _ => True end) ops.

End DataStore.

(** ** relay-manager.js *)

(** The handlers registered under a subscription id are closures.  The ones
    this development follows are the batch handler built by
    [ProfileFetcher.flush] (it captures [subId] and [pubkeys]); any other
    callback is kept by name. *)
Inductive Handler :=
  | ProfileBatch (subId : string) (pubkeys : list string)
  | Callback (name : string).

Module RelayManager.

(** [WebSocket.readyState] *)
Inductive ReadyState := CONNECTING | OPEN | CLOSING | CLOSED.

#[global] Instance ReadyState_eq_dec : EqDecision ReadyState.
Proof. solve_decision. Defined.

Record WebSocket := mkWebSocket { sock_url : string; readyState : ReadyState }.

(** A filter object of a [REQ] frame, with the fields [ProfileFetcher.flush]
    sets. *)
Record Filter := mkFilter { f_kinds : list Z; f_authors : list string }.

(** Frames handed to [ws.send]. *)
Inductive Frame :=
  | REQ (subId : string) (filters : list Filter)
  | CLOSE (subId : string)
  | EVENT (event : Event).

(** The callbacks given to [setTimeout]. *)
Inductive Timeout :=
  | ConnectTimeout            (* the 5 s guard of [connect] *)
  | Reconnect.                (* the callback of [attemptReconnect] *)

#[global] Instance Timeout_eq_dec : EqDecision Timeout.
Proof. solve_decision. Defined.

(** The state of a promise returned by [connect]. *)
Inductive Promise := Pending | Fulfilled | Rejected.

Record t := mk {
  ws : option WebSocket;
  url : option string;
  subscriptions : list (string * Handler);
  reconnectAttempts : Z;
  maxReconnectAttempts : Z;
  isConnecting : bool;
  (* effects on the outside: frames sent, timers started (delay in ms and
     callback, oldest first), and the promise returned by the latest call
     of [connect], if there was one *)
  sent : list Frame;
  timeouts : list (Z * Timeout);
  promise : option Promise
}.

Definition new : t := mk None None [] 0 3 false [] [] None.

Definition set_ws w st :=
  mk w (url st) (subscriptions st) (reconnectAttempts st) (maxReconnectAttempts st)
     (isConnecting st) (sent st) (timeouts st) (promise st).
Definition set_url u st :=
  mk (ws st) u (subscriptions st) (reconnectAttempts st) (maxReconnectAttempts st)
     (isConnecting st) (sent st) (timeouts st) (promise st).
Definition set_subscriptions s st :=
  mk (ws st) (url st) s (reconnectAttempts st) (maxReconnectAttempts st)
     (isConnecting st) (sent st) (timeouts st) (promise st).
Definition set_reconnectAttempts n st :=
  mk (ws st) (url st) (subscriptions st) n (maxReconnectAttempts st)
     (isConnecting st) (sent st) (timeouts st) (promise st).
Definition set_isConnecting b st :=
  mk (ws st) (url st) (subscriptions st) (reconnectAttempts st) (maxReconnectAttempts st)
     b (sent st) (timeouts st) (promise st).
Definition send (f : Frame) st :=
  mk (ws st) (url st) (subscriptions st) (reconnectAttempts st) (maxReconnectAttempts st)
     (isConnecting st) (sent st ++ [f]) (timeouts st) (promise st).
Definition setTimeout (cb : Timeout) (delay : Z) st :=
  mk (ws st) (url st) (subscriptions st) (reconnectAttempts st) (maxReconnectAttempts st)
     (isConnecting st) (sent st) (timeouts st ++ [(delay, cb)]) (promise st).
Definition set_promise p st :=
  mk (ws st) (url st) (subscriptions st) (reconnectAttempts st) (maxReconnectAttempts st)
     (isConnecting st) (sent st) (timeouts st) p.

(** [resolve()] and [reject(err)]: only a pending promise settles. *)
Definition resolve st :=
  match promise st with Some Pending => set_promise (Some Fulfilled) st | _ => st end.
Definition reject st :=
  match promise st with Some Pending => set_promise (Some Rejected) st | _ => st end.

(** [this.ws?.readyState === WebSocket.OPEN] *)
Definition isConnected (st : t) : bool :=
  match ws st with
  | Some w => bool_decide (readyState w = OPEN)
  | None => false
  end.

Definition subscribe (subId : string) (filters : list Filter) (handler : Handler)
    (st : t) : t * bool :=
  if negb (isConnected st) then (st, false)
  else
    (send (REQ subId filters)
       (set_subscriptions (Map_set subId handler (subscriptions st)) st), true).

Definition Map_delete {V} (k : string) (m : list (string * V)) : list (string * V) :=
  filter (λ kv, kv.1 ≠ k) m.

Definition unsubscribe (subId : string) (st : t) : t :=
  if negb (isConnected st) then
    set_subscriptions (Map_delete subId (subscriptions st)) st
  else
    let st1 := send (CLOSE subId) st in
    set_subscriptions (Map_delete subId (subscriptions st1)) st1.

Definition unsubscribeAll (st : t) : t :=
  foldl (λ s subId, unsubscribe subId s) st (Map_keys (subscriptions st)).

Definition resubscribeAll (st : t) : t :=
  let subs := subscriptions st in
  foldl (λ s kv, set_subscriptions (Map_set kv.1 kv.2 (subscriptions s)) s)
        (set_subscriptions [] st) subs.

(** [Math.min(1000 * Math.pow(2, n), 10000)] *)
Definition backoff (n : Z) : Z := Z.min (1000 * 2 ^ n) 10000.

Definition attemptReconnect (st : t) : t :=
  if decide (reconnectAttempts st >= maxReconnectAttempts st) then st
  else
    let st1 := set_reconnectAttempts (reconnectAttempts st + 1) st in
    setTimeout Reconnect (backoff (reconnectAttempts st1)) st1.

(** [ws.close()]: an open or connecting socket starts closing; the close
    event is delivered later. *)
Definition ws_close (st : t) : t :=
  match ws st with
  | Some w =>
      match readyState w with
      | CONNECTING | OPEN => set_ws (Some (mkWebSocket (sock_url w) CLOSING)) st
      | _ => st
      end
  | None => st
  end.

Definition disconnect (st : t) : t :=
  let st1 :=
    match ws st with
    | Some _ => set_ws None (ws_close (unsubscribeAll st))
    | None => st
    end in
  set_url None st1.

(** [connect(url)].  [ctor_ok] tells whether [new WebSocket(url)] returns
    (it throws on a malformed url). *)
Definition connect (u : string) (ctor_ok : bool) (st : t) : t :=
  if isConnected st && bool_decide (url st = Some u) then set_promise (Some Fulfilled) st
  else
    let st1 := match ws st with Some _ => disconnect st | None => st end in
    let st2 := set_promise (Some Pending) (set_isConnecting true (set_url (Some u) st1)) in
    if ctor_ok then
      setTimeout ConnectTimeout 5000 (set_ws (Some (mkWebSocket u CONNECTING)) st2)
    else
      reject (set_isConnecting false st2).

(** The four socket callbacks installed by [connect]. *)
Definition onopen (st : t) : t :=
  resolve (resubscribeAll (set_reconnectAttempts 0 (set_isConnecting false st))).

Definition onerror (st : t) : t :=
  reject (set_isConnecting false st).

Definition onclose (st : t) : t :=
  attemptReconnect (set_isConnecting false st).

(** The callback of the 5 s timer. *)
Definition onConnectTimeout (st : t) : t :=
  if negb (isConnected st) then reject (ws_close st) else st.

(** The callback of the reconnect timer; [ctor_ok] as in [connect]. *)
Definition onReconnectTimer (ctor_ok : bool) (st : t) : t :=
  match url st with
  | Some u => connect u ctor_ok st
  | None => st
  end.

(** [handleMessage]: the handler registered for the frame's subscription
    id, if any. *)
Definition handleMessage (subId : string) (st : t) : option Handler :=
  Map_get subId (subscriptions st).

Definition publish (event : Event) (st : t) : option t :=
  if negb (isConnected st) then None else Some (send (EVENT event) st).

(** *** The socket as the browser drives it

    What the WebSocket interface does to the socket held in [ws] and
    which callbacks it then runs: a successful handshake opens the socket
    and fires [open]; a failed handshake closes it and fires [error]
    followed by [close]; an established connection that drops closes it and
    fires [close]; a socket closed by [close()] fires [close] when the
    closing handshake ends.  Only the socket currently held in [ws] is
    followed: one that [connect] or [disconnect] has let go of is not. *)
Inductive Input :=
  | CallConnect (u : string) (ctor_ok : bool)
  | HandshakeOk
  | HandshakeFails
  | ConnectionDrops
  | CloseCompletes
  | ConnectTimeoutFires
  | ReconnectTimerFires (ctor_ok : bool).

Definition set_readyState (r : ReadyState) (st : t) : t :=
  match ws st with
  | Some w => set_ws (Some (mkWebSocket (sock_url w) r)) st
  | None => st
  end.

Definition readyState_is (r : ReadyState) (st : t) : bool :=
  match ws st with
  | Some w => bool_decide (readyState w = r)
  | None => false
  end.

Definition step (i : Input) (st : t) : t :=
  match i with
  | CallConnect u ok => connect u ok st
  | HandshakeOk =>
      if readyState_is CONNECTING st then onopen (set_readyState OPEN st) else st
  | HandshakeFails =>
      if readyState_is CONNECTING st
      then onclose (onerror (set_readyState CLOSED st)) else st
  | ConnectionDrops =>
      if readyState_is OPEN st then onclose (set_readyState CLOSED st) else st
  | CloseCompletes =>
      if readyState_is CLOSING st then onclose (set_readyState CLOSED st) else st
  | ConnectTimeoutFires => onConnectTimeout st
  | ReconnectTimerFires ok => onReconnectTimer ok st
  end.

Definition run (inputs : list Input) (st : t) : t := foldl (λ s i, step i s) st inputs.

(** The delays of the reconnect timers started so far, oldest first. *)
Definition reconnectDelays (st : t) : list Z :=
  (filter (λ dt, dt.2 = Reconnect) (timeouts st)).*1.

(** The part of the state the reconnection policy reads and writes. *)
Definition policy (st : t) : Z * Z * list Z :=
  (reconnectAttempts st, maxReconnectAttempts st, reconnectDelays st).

(** The backoff schedule: [k] attempts made out of three, on top of the
    delays [base]. *)
Definition on_schedule (base : list Z) (k : nat) (p : Z * Z * list Z) : Prop :=
  (k ≤ 3)%nat ∧ p = (Z.of_nat k, 3, base ++ take k [2000; 4000; 8000]).

(** *** Call sequences

    What a client does with the manager, interleaved with what the socket
    does; [publish] on a closed link throws and leaves the manager as it
    was. *)
Inductive Call :=
  | Subscribe (subId : string) (filters : list Filter) (handler : Handler)
  | Unsubscribe (subId : string)
  | UnsubscribeAll
  | Publish (event : Event)
  | Disconnect
  | Socket (i : Input).

Definition call (c : Call) (st : t) : t :=
  match c with
  | Subscribe subId filters handler => (subscribe subId filters handler st).1
  | Unsubscribe subId => unsubscribe subId st
  | UnsubscribeAll => unsubscribeAll st
  | Publish event => default st (publish event st)
  | Disconnect => disconnect st
  | Socket i => step i st
  end.

Definition calls (cs : list Call) (st : t) : t := foldl (λ s c, call c s) st cs.

End RelayManager.

(** ** profile-fetcher.js *)

Module ProfileFetcher.

Record t := mk {
  queue : list string;
  inProgress : gset string;
  (* the pending [setTimeout] of [scheduleFlush], with its delay in ms *)
  timer : option Z;
  batchDelay : Z;
  maxBatchSize : nat
}.

Definition new : t := mk [] ∅ None 500 100.

(** [clearTimeout(this.timer)] followed by a fresh [setTimeout]. *)
Definition scheduleFlush (st : t) : t :=
  mk (queue st) (inProgress st) (Some (batchDelay st)) (batchDelay st) (maxBatchSize st).

Definition clearTimeout (st : t) : t :=
  mk (queue st) (inProgress st) None (batchDelay st) (maxBatchSize st).

(** [request(pubkey)], reading [window.dataStore.profiles]. *)
Definition request (profiles : gmap string Profile) (pubkey : string) (st : t) : t :=
  if decide (is_Some (profiles !! pubkey)) then st
  else if decide (pubkey ∈ inProgress st) then st
  else scheduleFlush
         (mk (Set_add pubkey (queue st)) (inProgress st) (timer st)
             (batchDelay st) (maxBatchSize st)).

Definition requestMultiple (profiles : gmap string Profile) (pubkeys : list string)
    (st : t) : t :=
  foldl (λ s pk, request profiles pk s) st pubkeys.

(** ['profiles-' + Date.now()] *)
Definition subId_at (now_ms : Z) : string := "profiles-" +:+ pretty now_ms.

(** [flush()], with [Date.now()] as [now_ms]; it acts on
    [window.relayManager]. *)
Definition flush (now_ms : Z) (st : t) (rm : RelayManager.t) : t * RelayManager.t :=
  match queue st with
  | [] => (st, rm)
  | _ =>
      let pubkeys := take (maxBatchSize st) (queue st) in
      let st1 := mk [] (list_to_set pubkeys ∪ inProgress st) (timer st)
                    (batchDelay st) (maxBatchSize st) in
      let subId := subId_at now_ms in
      (st1, (RelayManager.subscribe subId
               [RelayManager.mkFilter [0] pubkeys]
               (ProfileBatch subId pubkeys) rm).1)
  end.

(** The timer started by [scheduleFlush] goes off. *)
Definition onTimer (now_ms : Z) (st : t) (rm : RelayManager.t) : t * RelayManager.t :=
  match timer st with
  | Some _ => flush now_ms (clearTimeout st) rm
  | None => (st, rm)
  end.

Definition flushNow (now_ms : Z) (st : t) (rm : RelayManager.t) : t * RelayManager.t :=
  flush now_ms (clearTimeout st) rm.

Section handler.
(** [JSON.parse(event.content)]; [None] when it throws. *)
Variable parseProfile : string → option (gmap string string).

(** The batch handler on an [EVENT] frame. *)
Definition onEvent (event : Event) (st : t) (ds : DataStore.t) : t * DataStore.t :=
  if decide (ev_kind event = 0) then
    match parseProfile (ev_content event) with
    | Some fields =>
        let ds' := (DataStore.addProfile (ev_pubkey event)
                      (mkProfile fields (ev_created_at event)) ds).1 in
        (mk (queue st) (inProgress st ∖ {[ev_pubkey event]}) (timer st)
            (batchDelay st) (maxBatchSize st), ds')
    | None => (st, ds)
    end
  else (st, ds).

(** The batch handler on an [EOSE] frame. *)
Definition onEose (subId : string) (pubkeys : list string) (st : t)
    (rm : RelayManager.t) : t * RelayManager.t :=
  (mk (queue st) (inProgress st ∖ list_to_set pubkeys) (timer st)
      (batchDelay st) (maxBatchSize st),
   RelayManager.unsubscribe subId rm).
End handler.

End ProfileFetcher.

(** ** view-state.js *)

Module ViewState.

(** The keys of [visibleEventIds]. *)
Inductive Tab := global | following | myposts | likes.

#[global] Instance Tab_eq_dec : EqDecision Tab.
Proof. solve_decision. Defined.

Record t := mk {
  vis_global : list string;
  vis_following : list string;
  vis_myposts : list string;
  vis_likes : list string;
  pendingEventIds : list string;
  (* the pending [setTimeout] of [scheduleRender], with its delay in ms *)
  renderTimer : option Z;
  renderDelay : Z
}.

Definition new : t := mk [] [] [] [] [] None 300.

(** [this.visibleEventIds[tab]] *)
Definition visibleEventIds (st : t) (tab : Tab) : list string :=
  match tab with
  | global => vis_global st
  | following => vis_following st
  | myposts => vis_myposts st
  | likes => vis_likes st
  end.

(** [this.visibleEventIds[tab].add(id)] *)
Definition addVisible (tab : Tab) (id : string) (st : t) : t :=
  match tab with
  | global =>
      mk (Set_add id (vis_global st)) (vis_following st) (vis_myposts st) (vis_likes st)
         (pendingEventIds st) (renderTimer st) (renderDelay st)
  | following =>
      mk (vis_global st) (Set_add id (vis_following st)) (vis_myposts st) (vis_likes st)
         (pendingEventIds st) (renderTimer st) (renderDelay st)
  | myposts =>
      mk (vis_global st) (vis_following st) (Set_add id (vis_myposts st)) (vis_likes st)
         (pendingEventIds st) (renderTimer st) (renderDelay st)
  | likes =>
      mk (vis_global st) (vis_following st) (vis_myposts st) (Set_add id (vis_likes st))
         (pendingEventIds st) (renderTimer st) (renderDelay st)
  end.

Definition set_pending (p : list string) (st : t) : t :=
  mk (vis_global st) (vis_following st) (vis_myposts st) (vis_likes st)
     p (renderTimer st) (renderDelay st).

Definition set_renderTimer (r : option Z) (st : t) : t :=
  mk (vis_global st) (vis_following st) (vis_myposts st) (vis_likes st)
     (pendingEventIds st) r (renderDelay st).

(** [filterOptions] *)
Record FilterOptions := mkOptions {
  flowgazerOnly : bool;
  authors : option (list string)
}.

Definition no_filter : FilterOptions := mkOptions false None.

Definition determineTargetTabs (ds : DataStore.t) (event : Event)
    (myPubkey : option string) : list Tab :=
  let is_post := bool_decide (ev_kind event = 1 ∨ ev_kind event = 6) in
  (if is_post then [global] else []) ++
  (if is_post && bool_decide (ev_pubkey event ∈ DataStore.followingPubkeys ds)
   then [following] else []) ++
  (if bool_decide (ev_kind event = 1 ∧ Some (ev_pubkey event) = myPubkey)
   then [myposts] else []) ++
  (if bool_decide (ev_kind event = 7 ∧ tag_value "p" (ev_tags event) = myPubkey)
   then [likes] else []).

(** [scheduleRender()], reading [window.app?.isAutoUpdate]. *)
Definition scheduleRender (isAutoUpdate : bool) (st : t) : t :=
  if negb isAutoUpdate then st else set_renderTimer (Some (renderDelay st)) st.

(** [renderNow()]; the boolean result tells that [timeline.refresh()] was
    called. *)
Definition renderNow (st : t) : t * bool := (set_renderTimer None st, true).

Definition switchTab (newTab : Tab) (st : t) : t * bool := renderNow st.

Section with_globals.
(** [window.dataStore], [window.nostrAuth?.pubkey] and
    [window.app?.isAutoUpdate] *)
Variable ds : DataStore.t.
Variable myPubkey : option string.
Variable isAutoUpdate : bool.

(** [addEvent(event, currentTab)]; it acts on [window.profileFetcher]. *)
Definition addEvent (event : Event) (currentTab : Tab) (st : t)
    (pf : ProfileFetcher.t) : t * ProfileFetcher.t :=
  let targetTabs := determineTargetTabs ds event myPubkey in
  let st1 := foldl (λ s tab, addVisible tab (ev_id event) s) st targetTabs in
  let '(st2, pf2) :=
    if decide (is_Some (DataStore.profiles ds !! ev_pubkey event)) then (st1, pf)
    else (set_pending (Set_add (ev_id event) (pendingEventIds st1)) st1,
          ProfileFetcher.request (DataStore.profiles ds) (ev_pubkey event) pf) in
  (if bool_decide (currentTab ∈ targetTabs) then scheduleRender isAutoUpdate st2 else st2,
   pf2).

Definition onProfileFetched (pubkey : string) (st : t) : t :=
  let eventsToRemove :=
    filter (λ eventId, ev_pubkey <$> Map_get eventId (DataStore.events ds) = Some pubkey)
           (pendingEventIds st) in
  let st1 := set_pending (foldl (λ p id, Set_delete id p) (pendingEventIds st)
                                eventsToRemove) st in
  if decide (eventsToRemove = []) then st1 else scheduleRender isAutoUpdate st1.

Definition getVisibleEvents (tab : Tab) (filterOptions : FilterOptions) (st : t)
    : list Event :=
  let eventIds := visibleEventIds st tab in
  let events := omap (λ id, Map_get id (DataStore.events ds)) eventIds in
  let events1 :=
    if flowgazerOnly filterOptions && negb (bool_decide (tab = likes))
    then filter (λ ev, is_flowgazer_post ev = true) events
    else events in
  let events2 :=
    match authors filterOptions with
    | Some (a :: l) => filter (λ ev, ev_pubkey ev ∈ a :: l) events1
    | _ => events1
    end in
  let events3 :=
    filter (λ ev, is_Some (DataStore.profiles ds !! ev_pubkey ev)) events2 in
  Array_sort by_created_at_desc events3.
End with_globals.

(** The narrowing of [getVisibleEvents]: the [flowgazerOnly] test (not
    applied on the likes tab) and the author list (applied when it is not
    empty). *)
Definition admits (tab : Tab) (filterOptions : FilterOptions) (ev : Event) : bool :=
  (if flowgazerOnly filterOptions && negb (bool_decide (tab = likes))
   then is_flowgazer_post ev else true) &&
  match authors filterOptions with
  | Some (a :: l) => bool_decide (ev_pubkey ev ∈ a :: l)
  | _ => true
  end.

(** The calls a client of the view state makes, each with the values of
    [window.nostrAuth?.pubkey] and [window.app?.isAutoUpdate] it finds. *)
Inductive Op :=
  | AddEvent (myPubkey : option string) (isAutoUpdate : bool) (event : Event)
      (currentTab : Tab)
  | OnProfileFetched (isAutoUpdate : bool) (pubkey : string)
  | ScheduleRender (isAutoUpdate : bool)
  | RenderNow
  | SwitchTab (newTab : Tab).

Definition step (ds : DataStore.t) (op : Op) (st : t) (pf : ProfileFetcher.t)
    : t * ProfileFetcher.t :=
  match op with
  | AddEvent my auto event currentTab => addEvent ds my auto event currentTab st pf
  | OnProfileFetched auto pubkey => (onProfileFetched ds auto pubkey st, pf)
  | ScheduleRender auto => (scheduleRender auto st, pf)
  | RenderNow => ((renderNow st).1, pf)
  | SwitchTab newTab => ((switchTab newTab st).1, pf)
  end.

(** The id sets hold no id twice. *)
Definition wf (st : t) : Prop := ∀ tab, NoDup (visibleEventIds st tab).

End ViewState.

(** ** The globals

    The classes reach each other through [window.dataStore],
    [window.viewState] and [window.profileFetcher]; a client interleaves
    calls on the store with calls on the view state. *)

Module Window.

Record t := mk {
  dataStore : DataStore.t;
  viewState : ViewState.t;
  profileFetcher : ProfileFetcher.t
}.

Definition new (now_ms : Z) : t :=
  mk (DataStore.new now_ms) ViewState.new ProfileFetcher.new.

Inductive Call :=
  | Store (op : DataStore.Op)
  | View (op : ViewState.Op).

Definition step (verifyEvent : Event → bool) (c : Call) (w : t) : t :=
  match c with
  | Store op =>
      mk (DataStore.step verifyEvent op (dataStore w)) (viewState w) (profileFetcher w)
  | View op =>
      let r := ViewState.step (dataStore w) op (viewState w) (profileFetcher w) in
      mk (dataStore w) r.1 r.2
  end.

Definition run (verifyEvent : Event → bool) (calls : list Call) (w : t) : t :=
  foldl (λ s c, step verifyEvent c s) w calls.

(** What every sequence of calls maintains. *)
Definition wf (verifyEvent : Event → bool) (w : t) : Prop :=
  DataStore.wf verifyEvent (dataStore w) ∧ ViewState.wf (viewState w).

End Window.

(** [a] comes before [b] in [l]. *)
Definition precedes {A} (a b : A) (l : list A) : Prop :=
  ∃ l1 l2 l3, l = l1 ++ a :: l2 ++ b :: l3.

(** ** Sample data

    A verifier and events for the examples further down. *)
(** The signature ["ok"] is the one that verifies. *)
Definition sample_verify (ev : Event) : bool := bool_decide (ev_sig ev = "ok").

Definition note (id pubkey : string) (created_at : Z) (sig : string) : Event :=
  mkEvent id pubkey 1 created_at "" [] sig.

Definition reaction (id pubkey target : string) (created_at : Z) : Event :=
  mkEvent id pubkey 7 created_at "+" [["e"; target]] "ok".

(** A hundred and fifty distinct pubkeys, and a relay manager whose socket is
    open. *)
Definition sample_pubkeys : list string :=
  (λ n : nat, "pk" +:+ pretty n) <$> seq 0 150.

Definition sample_relay : RelayManager.t :=
  RelayManager.run
    [RelayManager.CallConnect "wss://relay.example" true; RelayManager.HandshakeOk]
    RelayManager.new.

(** Two notes with the same timestamp by different authors, a profile, and
    the calls that store both notes and both authors' profiles. *)
Definition note1 : Event := note "e1" "alice" 10 "ok".
Definition note2 : Event := note "e2" "bob" 10 "ok".
Definition sample_profile : Profile := mkProfile {[ "name" := "someone" ]} 5.

Definition store_both : list Window.Call :=
  [Window.Store (DataStore.AddEvent None note1);
   Window.Store (DataStore.AddEvent None note2);
   Window.Store (DataStore.AddProfile "alice" sample_profile);
   Window.Store (DataStore.AddProfile "bob" sample_profile)].

(** * Properties *)

(** ** Containers *)

Section js_containers_facts.
Context {V : Type}.
Implicit Types (m : list (string * V)) (k : string) (v : V).

Lemma Map_get_None k m : Map_get k m = None ↔ k ∉ Map_keys m.
Proof.
  unfold Map_keys. induction m as [|[k' v'] m IH]; simpl.
  - split; [intros _; apply not_elem_of_nil | done].
  - rewrite not_elem_of_cons. destruct (decide (k' = k)) as [->|Hne].
    + split; [done | intros [? _]; done].
    + rewrite IH. split; [intros ?; split; [congruence | done] | intros [_ ?]; done].
Qed.

Lemma Map_get_Some_elem_of k v m : Map_get k m = Some v → (k, v) ∈ m.
Proof.
  induction m as [|[k' v'] m IH]; simpl; [done|].
  destruct (decide (k' = k)) as [->|Hne].
  - intros [= ->]. apply list_elem_of_here.
  - intros H. apply list_elem_of_further, IH, H.
Qed.

Lemma Map_get_elem_of k v m : NoDup (Map_keys m) → (k, v) ∈ m → Map_get k m = Some v.
Proof.
  unfold Map_keys. induction m as [|[k' v'] m IH]; simpl.
  - intros _ H. by apply elem_of_nil in H.
  - rewrite NoDup_cons. intros [Hk Hnd] Hin.
    apply elem_of_cons in Hin as [[= -> ->]|Hin].
    + by rewrite decide_True.
    + destruct (decide (k' = k)) as [->|Hne]; [|by apply IH].
      exfalso. apply Hk. apply list_elem_of_fmap. by exists (k, v).
Qed.

Lemma Map_has_true k m : Map_has k m = true ↔ k ∈ Map_keys m.
Proof.
  unfold Map_has. destruct (Map_get k m) eqn:E.
  - split; [intros _ | done].
    destruct (decide (k ∈ Map_keys m)) as [|Hn]; [done|].
    apply Map_get_None in Hn. congruence.
  - split; [done|]. intros Hin. apply Map_get_None in E. done.
Qed.

Lemma Map_has_false k m : Map_has k m = false ↔ k ∉ Map_keys m.
Proof.
  rewrite <- Map_has_true. destruct (Map_has k m); split; done.
Qed.

Lemma Map_set_fresh k v m : k ∉ Map_keys m → Map_set k v m = m ++ [(k, v)].
Proof.
  unfold Map_keys. induction m as [|[k' v'] m IH]; simpl; [done|].
  rewrite not_elem_of_cons. intros [Hne Hnin].
  rewrite decide_False by congruence. by rewrite IH.
Qed.
End js_containers_facts.

Lemma Set_add_fresh x s : x ∉ s → Set_add x s = s ++ [x].
Proof. intros H. unfold Set_add, Set_has. by rewrite bool_decide_eq_false_2. Qed.

Lemma Set_add_NoDup x s : NoDup s → NoDup (Set_add x s).
Proof.
  intros H. unfold Set_add, Set_has. case_bool_decide; [done|].
  apply NoDup_app. split_and!; [done | | apply NoDup_singleton].
  intros y Hy Hy'. apply list_elem_of_singleton in Hy'. by subst.
Qed.

Lemma Set_add_elem_of x y s : y ∈ Set_add x s ↔ y = x ∨ y ∈ s.
Proof.
  unfold Set_add, Set_has. case_bool_decide.
  - split; [by right | intros [->|]; done].
  - rewrite elem_of_app, list_elem_of_singleton. tauto.
Qed.

(** ** The store *)

Section DataStore_facts.
Import DataStore.
Variable verifyEvent : Event → bool.
Implicit Types (st : DataStore.t) (event : Event) (my : option string).

Lemma updateReactionCount_same event st :
  let st' := updateReactionCount event st in
  events st' = events st ∧ profiles st' = profiles st ∧
  myPostIds st' = myPostIds st ∧ receivedLikeIds st' = receivedLikeIds st.
Proof.
  unfold updateReactionCount. destruct (tag_value "e" (ev_tags event)); [|done].
  case_decide; done.
Qed.

Lemma updateReactionCount_counts event st targetId :
  is_Some (reactionCounts (updateReactionCount event st) !! targetId) →
  is_Some (reactionCounts st !! targetId) ∨
  tag_value "e" (ev_tags event) = Some targetId.
Proof.
  unfold updateReactionCount.
  destruct (tag_value "e" (ev_tags event)) as [tid|]; [|by left].
  case_decide; [by left|]. simpl.
  destruct (decide (tid = targetId)) as [->|Hne]; [by right|].
  rewrite lookup_insert_ne by done. by left.
Qed.

Lemma categorizeEvent_events my event st :
  events (categorizeEvent my event st) = events st.
Proof.
  unfold categorizeEvent.
  repeat (case_decide || case_match); simpl;
    rewrite ?(proj1 (updateReactionCount_same _ _)); simpl;
    rewrite ?(proj1 (updateReactionCount_same _ _)); done.
Qed.

Lemma updateOldestTimestamps_same my event st :
  let st' := updateOldestTimestamps my event st in
  events st' = events st ∧ profiles st' = profiles st ∧
  myPostIds st' = myPostIds st ∧ receivedLikeIds st' = receivedLikeIds st ∧
  reactionCounts st' = reactionCounts st.
Proof. unfold updateOldestTimestamps. case_decide; done. Qed.

(** A rejected event leaves the store as it was; an accepted one is
    appended to the table. *)
Lemma addEvent_rejected my event st :
  Map_has (ev_id event) (events st) = true ∨ verifyEvent event = false →
  addEvent verifyEvent my event st = (st, false).
Proof.
  unfold addEvent. intros [H|H]; rewrite H; [done|].
  by destruct (Map_has _ _).
Qed.

Lemma addEvent_accepted my event st :
  Map_has (ev_id event) (events st) = false → verifyEvent event = true →
  (addEvent verifyEvent my event st).2 = true ∧
  events (addEvent verifyEvent my event st).1 = events st ++ [(ev_id event, event)].
Proof.
  unfold addEvent. intros H1 H2. rewrite H1, H2. simpl. split; [done|].
  rewrite (proj1 (updateOldestTimestamps_same _ _ _)), categorizeEvent_events. simpl.
  apply Map_set_fresh. by apply Map_has_false.
Qed.

Lemma addEvent_cases my event st :
  addEvent verifyEvent my event st = (st, false) ∨
  (Map_has (ev_id event) (events st) = false ∧ verifyEvent event = true).
Proof.
  destruct (Map_has (ev_id event) (events st)) eqn:E1;
    [left; apply addEvent_rejected; by left|].
  destruct (verifyEvent event) eqn:E2; [by right|].
  left; apply addEvent_rejected; by right.
Qed.
End DataStore_facts.
Section DataStore_wf.
Import DataStore.
Variable verifyEvent : Event → bool.
Implicit Types (st : DataStore.t) (event : Event) (my : option string).

Lemma categorizeEvent_counts my event st targetId :
  is_Some (reactionCounts (categorizeEvent my event st) !! targetId) →
  is_Some (reactionCounts st !! targetId) ∨ counts_towards targetId event.
Proof.
  unfold categorizeEvent, counts_towards. intros H.
  repeat case_decide; repeat case_match; simpl in *;
    repeat (apply updateReactionCount_counts in H as [H|H]; simpl in H);
    try (by left); right; (split; [by auto | congruence]).
Qed.

Lemma categorizeEvent_sets my event st :
  let st' := categorizeEvent my event st in
  profiles st' = profiles st ∧
  (myPostIds st' = myPostIds st ∨ myPostIds st' = Set_add (ev_id event) (myPostIds st)) ∧
  (receivedLikeIds st' = receivedLikeIds st ∨
   receivedLikeIds st' = Set_add (ev_id event) (receivedLikeIds st)).
Proof.
  unfold categorizeEvent.
  repeat case_decide; repeat case_match; simpl;
    rewrite ?(proj1 (proj2 (updateReactionCount_same _ _)));
    rewrite ?(proj1 (proj2 (proj2 (updateReactionCount_same _ _))));
    rewrite ?(proj2 (proj2 (proj2 (updateReactionCount_same _ _))));
    simpl;
    rewrite ?(proj1 (proj2 (updateReactionCount_same _ _)));
    rewrite ?(proj1 (proj2 (proj2 (updateReactionCount_same _ _))));
    rewrite ?(proj2 (proj2 (proj2 (updateReactionCount_same _ _))));
    simpl; auto.
Qed.

Lemma DataStore_wf_new now_ms : wf verifyEvent (new now_ms).
Proof.
  split; simpl; try done; try apply NoDup_nil_2.
  intros tid [c Hc]. by rewrite lookup_empty in Hc.
Qed.

Lemma sublist_Set_add_snoc x s keys :
  s `sublist_of` keys → x ∉ keys →
  Set_add x s `sublist_of` (keys ++ [x]).
Proof.
  intros Hs Hx. rewrite Set_add_fresh.
  - by apply sublist_app.
  - intros Hin. apply Hx. by eapply elem_of_sublist.
Qed.

Lemma DataStore_wf_addEvent my event st :
  wf verifyEvent st → wf verifyEvent (addEvent verifyEvent my event st).1.
Proof.
  intros Hwf. destruct (addEvent_cases verifyEvent my event st) as [->|[Hfresh Hver]]; [done|].
  destruct (addEvent_accepted verifyEvent my event st Hfresh Hver) as [_ Hev].
  pose proof (proj1 (Map_has_false _ _) Hfresh) as Hnin.
  destruct Hwf as [Hk Hi Hv Hm Hl Hc].
  assert (Hst : (addEvent verifyEvent my event st).1 =
    updateOldestTimestamps my event (categorizeEvent my event
      (mk (Map_set (ev_id event) event (events st)) (profiles st)
          (myPostIds st) (receivedLikeIds st) (followingPubkeys st)
          (likedByMeIds st) (reactionCounts st) (oldestTimestamps st)))).
  { unfold addEvent. by rewrite Hfresh, Hver. }
  set (st1 := mk _ _ _ _ _ _ _ _) in Hst.
  destruct (updateOldestTimestamps_same my event (categorizeEvent my event st1))
    as (_ & _ & Hmy & Hrl & Hrc).
  destruct (categorizeEvent_sets my event st1) as (_ & Hmy' & Hrl').
  rewrite <- Hst in Hmy, Hrl, Hrc. simpl in *.
  split; rewrite ?Hev, ?Hmy, ?Hrl; unfold Map_keys, Map_values; rewrite ?fmap_app; simpl.
  - apply NoDup_app. split_and!; [done | | apply NoDup_singleton].
    intros y Hy Hy'. apply list_elem_of_singleton in Hy'. by subst.
  - apply Forall_app. split; [done|]. by apply Forall_singleton.
  - apply Forall_app. split; [done|]. by apply Forall_singleton.
  - destruct Hmy' as [->| ->]; simpl.
    + by apply sublist_inserts_r.
    + by apply sublist_Set_add_snoc.
  - destruct Hrl' as [->| ->]; simpl.
    + by apply sublist_inserts_r.
    + by apply sublist_Set_add_snoc.
  - intros tid Htid. rewrite Hrc in Htid.
    apply categorizeEvent_counts in Htid as [Htid|Htid]; simpl in Htid.
    + apply Exists_app. left. by apply Hc.
    + apply Exists_app. right. by apply Exists_cons_hd.
Qed.

Lemma DataStore_wf_addProfile pubkey profileData st :
  wf verifyEvent st → wf verifyEvent (addProfile pubkey profileData st).1.
Proof.
  intros [Hk Hi Hv Hm Hl Hc]. unfold addProfile.
  destruct (profiles st !! pubkey); [case_decide|]; by split.
Qed.

Lemma DataStore_wf_step op st : wf verifyEvent st → wf verifyEvent (step verifyEvent op st).
Proof.
  destruct op; simpl; intros Hwf.
  - by apply DataStore_wf_addEvent.
  - by apply DataStore_wf_addProfile.
  - destruct Hwf. by split.
  - apply DataStore_wf_new.
Qed.

Lemma DataStore_wf_run ops st : wf verifyEvent st → wf verifyEvent (run verifyEvent ops st).
Proof.
  unfold run. revert st. induction ops as [|op ops IH]; simpl; [done|].
  intros st Hwf. by apply IH, DataStore_wf_step.
Qed.
End DataStore_wf.

Section DataStore_claims.
Import DataStore.

(** ** C4: rejected events leave the store untouched *)

(** C4.  An event whose id is already in the table, or whose signature does
    not verify, makes [addEvent] return [false] together with the store it
    was given (events, category sets, reaction counts and cursors all as
    before; the method is a total function, there is no failure branch);
    and after any sequence of calls on a fresh store every event in the
    table is one that verified. *)
Theorem addEvent_rejects_without_change (verifyEvent : Event → bool) :
  (∀ my event st,
     Map_has (ev_id event) (events st) = true ∨ verifyEvent event = false →
     addEvent verifyEvent my event st = (st, false)) ∧
  (∀ ops now_ms event,
     verifyEvent event = false →
     event ∉ Map_values (events (run verifyEvent ops (new now_ms)))).
Proof.
  split.
  - intros my event st. apply addEvent_rejected.
  - intros ops now_ms event Hbad Hin.
    pose proof (DataStore_wf_run verifyEvent ops _ (DataStore_wf_new verifyEvent now_ms)) as [_ _ Hv _ _ _].
    unfold Map_values in Hin. apply list_elem_of_fmap in Hin as [[k e] [-> Hin]].
    rewrite Forall_forall in Hv. specialize (Hv _ Hin). simpl in *. congruence.
Qed.

Lemma addEvent_rejects_without_change_witness :
  let bad := note "a1" "alice" 10 "forged" in
  let good := note "a2" "alice" 11 "ok" in
  let st := run sample_verify [AddEvent None good] (new 5000) in
  addEvent sample_verify None bad st = (st, false) ∧
  addEvent sample_verify None good st = (st, false) ∧
  bad ∉ Map_values (events (run sample_verify [AddEvent None bad; AddEvent None good] (new 5000))).
Proof.
  intros bad good st.
  destruct (addEvent_rejects_without_change sample_verify) as [H1 H2].
  split_and!.
  - apply H1. right. reflexivity.
  - apply H1. left. reflexivity.
  - apply H2. reflexivity.
Defined.

(** ** C5: adding the same event twice *)

(** C5, as stated, fails: two calls with an event that does not verify, or
    with one already stored, leave the size as it was. *)
Lemma addEvent_twice_counterexample :
  ¬ (∀ (verifyEvent : Event → bool) my event st,
       totalEvents (addEvent verifyEvent my event
                      (addEvent verifyEvent my event st).1).1
       = S (totalEvents st)) ∧
  (let e := note "a1" "alice" 10 "forged" in
   totalEvents (addEvent sample_verify None e
                  (addEvent sample_verify None e (new 5000)).1).1 = 0%nat) ∧
  (let e := note "a2" "alice" 11 "ok" in
   let st := (addEvent sample_verify None e (new 5000)).1 in
   totalEvents st = 1%nat ∧
   totalEvents (addEvent sample_verify None e
                  (addEvent sample_verify None e st).1).1 = 1%nat).
Proof.
  split_and!; [|reflexivity|split; reflexivity].
  intros H.
  specialize (H sample_verify None (note "a1" "alice" 10 "forged") (new 5000)).
  vm_compute in H. discriminate.
Qed.

(** C5, amended.  For an event that verifies and whose id is not yet in
    the table, the first call accepts it, the second rejects it as a
    duplicate without changing the store, and the table has grown by
    exactly one. *)
Theorem addEvent_twice (verifyEvent : Event → bool) my my' event st :
  verifyEvent event = true →
  Map_has (ev_id event) (events st) = false →
  let r1 := addEvent verifyEvent my event st in
  let r2 := addEvent verifyEvent my' event r1.1 in
  r1.2 = true ∧ r2 = (r1.1, false) ∧ totalEvents r2.1 = S (totalEvents st).
Proof.
  intros Hver Hfresh r1 r2.
  destruct (addEvent_accepted verifyEvent my event st Hfresh Hver) as [Hacc Hev].
  fold r1 in Hacc, Hev.
  assert (Hdup : r2 = (r1.1, false)).
  { apply addEvent_rejected. left. apply Map_has_true.
    rewrite Hev. unfold Map_keys. rewrite fmap_app. simpl.
    apply elem_of_app. right. apply list_elem_of_here. }
  split_and!; [done | done |].
  rewrite Hdup. simpl. unfold totalEvents. rewrite Hev, length_app. simpl. lia.
Qed.

Lemma addEvent_twice_witness :
  let e := note "a2" "alice" 11 "ok" in
  let r1 := addEvent sample_verify None e (new 5000) in
  let r2 := addEvent sample_verify None e r1.1 in
  r1.2 = true ∧ r2 = (r1.1, false) ∧ totalEvents r2.1 = 1%nat.
Proof.
  intros e. apply (addEvent_twice sample_verify None None e (new 5000)); reflexivity.
Defined.

(** ** C8: profiles are last-write-wins by [created_at] *)

(** C8.  [addProfile] rejects, and leaves the store as it was, exactly when
    a profile is stored for the pubkey whose [created_at] is greater than or
    equal to the incoming one; otherwise it accepts and the stored profile
    is the incoming one as a whole, the rest of the store unchanged. *)
Theorem addProfile_last_write_wins pubkey profileData st st' accepted :
  addProfile pubkey profileData st = (st', accepted) →
  (accepted = false ↔
     ∃ existing, profiles st !! pubkey = Some existing ∧
                 p_created_at existing >= p_created_at profileData) ∧
  (accepted = false → st' = st) ∧
  (accepted = true →
     st' = mk (events st) (<[pubkey := profileData]> (profiles st)) (myPostIds st)
              (receivedLikeIds st) (followingPubkeys st) (likedByMeIds st)
              (reactionCounts st) (oldestTimestamps st) ∧
     profiles st' !! pubkey = Some profileData).
Proof.
  unfold addProfile. destruct (profiles st !! pubkey) as [existing|] eqn:E.
  - case_decide as Hge; intros [= <- <-].
    + split_and!; [|done|done]. split; [|done]. intros _. by exists existing.
    + split_and!; [|done|].
      * split; [done|]. intros (ex & [= <-] & Hex). done.
      * intros _. split; [done|]. simpl. apply lookup_insert_eq.
  - intros [= <- <-]. split_and!; [|done|].
    + split; [done|]. intros (ex & ? & _). done.
    + intros _. split; [done|]. simpl. apply lookup_insert_eq.
Qed.

Lemma addProfile_last_write_wins_witness :
  let older := mkProfile {[ "name" := "al" ]} 100 in
  let same := mkProfile {[ "name" := "alice" ]} 100 in
  let newer := mkProfile {[ "about" := "hi" ]} 101 in
  let st := (addProfile "alice" older (new 5000)).1 in
  addProfile "alice" same st = (st, false) ∧
  (addProfile "alice" newer st).2 = true ∧
  profiles (addProfile "alice" newer st).1 !! "alice" = Some newer.
Proof.
  intros older same newer st.
  split_and!.
  - destruct (addProfile "alice" same st) as [st' acc] eqn:E.
    destruct (addProfile_last_write_wins _ _ _ _ _ E) as (Hiff & Hsame & _).
    assert (acc = false) as ->.
    { apply Hiff. exists older. split; [reflexivity | simpl; lia]. }
    by rewrite Hsame.
  - reflexivity.
  - destruct (addProfile "alice" newer st) as [st' acc] eqn:E.
    destruct (addProfile_last_write_wins _ _ _ _ _ E) as (_ & _ & Hacc).
    apply Hacc. by injection E as _ <-.
Defined.

(** ** C10: reaction counts of untouched ids *)

(** C10.  [getReactionCount] always returns a record; after any sequence of
    calls on a fresh store, an id that no stored repost or reaction names
    in its first [e] tag gets [{reposts: 0, reactions: 0}]. *)
Theorem getReactionCount_zero (verifyEvent : Event → bool) ops now_ms eventId :
  let st := run verifyEvent ops (new now_ms) in
  Forall (λ ev, ¬ counts_towards eventId ev) (Map_values (events st)) →
  getReactionCount eventId st = mkCounts 0 0.
Proof.
  intros st Hnone. unfold getReactionCount.
  destruct (reactionCounts st !! eventId) as [c|] eqn:E; [|done].
  exfalso.
  pose proof (DataStore_wf_run verifyEvent ops _ (DataStore_wf_new verifyEvent now_ms)) as [_ _ _ _ _ Hc].
  specialize (Hc eventId). fold st in Hc. rewrite E in Hc.
  specialize (Hc (mk_is_Some _ _ eq_refl)).
  apply Exists_exists in Hc as (ev & Hin & Hct).
  rewrite Forall_forall in Hnone. by apply (Hnone ev).
Qed.

Lemma getReactionCount_zero_witness :
  let ops := [AddEvent None (note "n1" "alice" 10 "ok");
              AddEvent None (reaction "r1" "bob" "n1" 11)] in
  getReactionCount "n2" (run sample_verify ops (new 5000)) = mkCounts 0 0 ∧
  getReactionCount "n1" (run sample_verify ops (new 5000)) = mkCounts 0 1.
Proof.
  intros ops. split; [|reflexivity].
  apply (getReactionCount_zero sample_verify ops 5000 "n2").
  unfold counts_towards. repeat constructor; simpl; intros [_ ?]; discriminate.
Defined.
End DataStore_claims.

(** ** The relay link *)

Section RelayManager_facts.
Import RelayManager.
Implicit Types (st : RelayManager.t).

Lemma policy_unsubscribe subId st : policy (unsubscribe subId st) = policy st.
Proof. unfold unsubscribe. by destruct (negb (isConnected st)). Qed.

Lemma policy_unsubscribeAll st : policy (unsubscribeAll st) = policy st.
Proof.
  unfold unsubscribeAll. generalize (Map_keys (subscriptions st)) as l.
  intros l. revert st. induction l as [|k l IH]; intros st; simpl; [done|].
  by rewrite IH, policy_unsubscribe.
Qed.

Lemma policy_resubscribeAll st : policy (resubscribeAll st) = policy st.
Proof.
  unfold resubscribeAll. generalize (subscriptions st) as l. intros l.
  change (policy st) with (policy (set_subscriptions [] st)).
  generalize (set_subscriptions [] st) as s. clear st.
  induction l as [|kv l IH]; intros s; simpl; [done|]. by rewrite IH.
Qed.

Lemma policy_ws_close st : policy (ws_close st) = policy st.
Proof. unfold ws_close. destruct (ws st) as [[? []]|]; done. Qed.

Lemma policy_reject st : policy (reject st) = policy st.
Proof. unfold reject. by destruct (promise st) as [[]|]. Qed.

Lemma policy_resolve st : policy (resolve st) = policy st.
Proof. unfold resolve. by destruct (promise st) as [[]|]. Qed.

Lemma policy_set_readyState r st : policy (set_readyState r st) = policy st.
Proof. unfold set_readyState. by destruct (ws st). Qed.

Lemma policy_disconnect st : policy (disconnect st) = policy st.
Proof.
  unfold disconnect. destruct (ws st); [|done].
  change (policy (ws_close (unsubscribeAll st)) = policy st).
  by rewrite policy_ws_close, policy_unsubscribeAll.
Qed.

Lemma policy_connect u ok st : policy (connect u ok st) = policy st.
Proof.
  unfold connect. destruct (_ && _); [done|].
  set (st1 := match ws st with Some _ => disconnect st | None => st end).
  assert (H1 : policy st1 = policy st).
  { unfold st1. destruct (ws st); [apply policy_disconnect | done]. }
  destruct ok.
  - rewrite <- H1. unfold policy, reconnectDelays. simpl.
    rewrite filter_app.
    replace (filter (λ dt : Z * Timeout, dt.2 = Reconnect) [(5000, ConnectTimeout)])
      with (@nil (Z * Timeout)) by done.
    by rewrite app_nil_r.
  - by rewrite policy_reject.
Qed.

Lemma policy_onerror st : policy (onerror st) = policy st.
Proof. unfold onerror. by rewrite policy_reject. Qed.

Lemma backoff_values : backoff 1 = 2000 ∧ backoff 2 = 4000 ∧ backoff 3 = 8000.
Proof. done. Qed.

Lemma attemptReconnect_below st :
  reconnectAttempts st < maxReconnectAttempts st →
  attemptReconnect st =
    setTimeout Reconnect (backoff (reconnectAttempts st + 1))
      (set_reconnectAttempts (reconnectAttempts st + 1) st).
Proof. intros H. unfold attemptReconnect. rewrite decide_False by lia. done. Qed.

Lemma attemptReconnect_capped st :
  reconnectAttempts st >= maxReconnectAttempts st → attemptReconnect st = st.
Proof. intros H. unfold attemptReconnect. by rewrite decide_True. Qed.

Lemma policy_attemptReconnect st :
  policy (attemptReconnect st) =
    if decide (reconnectAttempts st < maxReconnectAttempts st)
    then (reconnectAttempts st + 1, maxReconnectAttempts st,
          reconnectDelays st ++ [backoff (reconnectAttempts st + 1)])
    else policy st.
Proof.
  case_decide as H.
  - rewrite attemptReconnect_below by done. unfold policy, reconnectDelays. simpl.
    rewrite filter_app, fmap_app. done.
  - by rewrite attemptReconnect_capped by lia.
Qed.

Lemma policy_onclose st :
  policy (onclose st) =
    if decide (reconnectAttempts st < maxReconnectAttempts st)
    then (reconnectAttempts st + 1, maxReconnectAttempts st,
          reconnectDelays st ++ [backoff (reconnectAttempts st + 1)])
    else policy st.
Proof. unfold onclose. by rewrite policy_attemptReconnect. Qed.

Lemma on_schedule_close base k st :
  on_schedule base k (policy st) →
  on_schedule base (Nat.min 3 (S k)) (policy (onclose st)).
Proof.
  intros [Hk Hp]. rewrite policy_onclose.
  injection Hp as Ha Hm Hd. rewrite Ha, Hm, Hd.
  assert (k = 0 ∨ k = 1 ∨ k = 2 ∨ k = 3)%nat as [->|[->|[->| ->]]] by lia;
    (split; [simpl; lia|]); simpl; rewrite <- ?app_assoc; try done.
  unfold policy. by rewrite Ha, Hm, Hd.
Qed.

Lemma on_schedule_step base k i st :
  i ≠ HandshakeOk →
  on_schedule base k (policy st) →
  ∃ k', (k ≤ k')%nat ∧ on_schedule base k' (policy (step i st)).
Proof.
  intros Hi Hs.
  assert (Hclose : ∀ s, policy s = policy st →
            ∃ k', (k ≤ k')%nat ∧ on_schedule base k' (policy (onclose s))).
  { intros s Hps. exists (Nat.min 3 (S k)). split; [destruct Hs; lia|].
    apply on_schedule_close. by rewrite Hps. }
  assert (Hsame : ∀ s, policy s = policy st →
            ∃ k', (k ≤ k')%nat ∧ on_schedule base k' (policy s)).
  { intros s Hps. exists k. split; [done|]. by rewrite Hps. }
  destruct i; simpl; try done.
  - apply Hsame, policy_connect.
  - destruct (readyState_is CONNECTING st); [|by apply Hsame].
    apply Hclose. by rewrite policy_onerror, policy_set_readyState.
  - destruct (readyState_is OPEN st); [|by apply Hsame].
    apply Hclose. by rewrite policy_set_readyState.
  - destruct (readyState_is CLOSING st); [|by apply Hsame].
    apply Hclose. by rewrite policy_set_readyState.
  - apply Hsame. unfold onConnectTimeout. destruct (negb _); [|done].
    by rewrite policy_reject, policy_ws_close.
  - apply Hsame. unfold onReconnectTimer. destruct (url st); [|done].
    apply policy_connect.
Qed.

Lemma on_schedule_run base inputs : ∀ k st,
  HandshakeOk ∉ inputs →
  on_schedule base k (policy st) →
  ∃ k', (k ≤ k')%nat ∧ on_schedule base k' (policy (run inputs st)).
Proof.
  unfold run. induction inputs as [|i inputs IH]; intros k st Hni Hs; simpl.
  - by exists k.
  - apply not_elem_of_cons in Hni as [Hi Hni].
    destruct (on_schedule_step base k i st) as (k1 & Hk1 & Hs1); [done|done|].
    destruct (IH k1 _ Hni Hs1) as (k2 & Hk2 & Hs2).
    exists k2. split; [lia | done].
Qed.

Lemma on_schedule_iter base n : ∀ k st,
  on_schedule base k (policy st) →
  on_schedule base (Nat.min 3 (n + k)) (policy (Nat.iter n onclose st)).
Proof.
  induction n as [|n IH]; intros k st Hs.
  - replace (Nat.min 3 (0 + k)) with k by (destruct Hs; lia). done.
  - specialize (IH k st Hs). apply on_schedule_close in IH.
    replace (Nat.min 3 (S n + k)) with (Nat.min 3 (S (Nat.min 3 (n + k)))) by lia.
    done.
Qed.
End RelayManager_facts.

Section RelayManager_claims.
Import RelayManager.
Implicit Types (st : RelayManager.t).

(** ** C2: the backoff schedule *)

(** C2.  [attemptReconnect] starts a timer only while the counter is below
    the cap, and computes the delay from the counter it has just
    incremented; with the constructor's cap of 3 and the counter at 0 (as
    after the constructor or after a successful open), three or more closes
    in a row start exactly three timers, of 2000, 4000 and 8000 ms in that
    order; and whatever else happens, as long as no connection opens, the
    timers started are a prefix of that schedule and never a fourth. *)
Theorem reconnect_backoff_schedule :
  (∀ st, reconnectAttempts st < maxReconnectAttempts st →
     attemptReconnect st =
       setTimeout Reconnect (Z.min (1000 * 2 ^ (reconnectAttempts st + 1)) 10000)
         (set_reconnectAttempts (reconnectAttempts st + 1) st)) ∧
  (∀ st, reconnectAttempts st >= maxReconnectAttempts st → attemptReconnect st = st) ∧
  (∀ st n, reconnectAttempts st = 0 → maxReconnectAttempts st = 3 → (3 ≤ n)%nat →
     reconnectAttempts (Nat.iter n onclose st) = 3 ∧
     reconnectDelays (Nat.iter n onclose st) = reconnectDelays st ++ [2000; 4000; 8000]) ∧
  (∀ st inputs, reconnectAttempts st = 0 → maxReconnectAttempts st = 3 →
     HandshakeOk ∉ inputs →
     ∃ k : nat, (k ≤ 3)%nat ∧
       reconnectAttempts (run inputs st) = Z.of_nat k ∧
       reconnectDelays (run inputs st) = reconnectDelays st ++ take k [2000; 4000; 8000]).
Proof.
  assert (Hstart : ∀ st, reconnectAttempts st = 0 → maxReconnectAttempts st = 3 →
            on_schedule (reconnectDelays st) 0 (policy st)).
  { intros st Ha Hm. split; [lia|]. unfold policy. rewrite Ha, Hm. simpl.
    by rewrite app_nil_r. }
  split_and!.
  - apply attemptReconnect_below.
  - apply attemptReconnect_capped.
  - intros st n Ha Hm Hn.
    destruct (on_schedule_iter (reconnectDelays st) n 0 st (Hstart st Ha Hm)) as [_ Hp].
    replace (Nat.min 3 (n + 0)) with 3%nat in Hp by lia.
    by injection Hp as -> _ ->.
  - intros st inputs Ha Hm Hni.
    destruct (on_schedule_run (reconnectDelays st) inputs 0 st Hni (Hstart st Ha Hm))
      as (k & _ & Hk & Hp).
    exists k. split; [done|]. by injection Hp as -> _ ->.
Qed.

Lemma reconnect_backoff_schedule_witness :
  let st0 := run [CallConnect "wss://relay.example" true; HandshakeOk] new in
  reconnectDelays (attemptReconnect st0) = [2000] ∧
  attemptReconnect (Nat.iter 3 onclose st0) = Nat.iter 3 onclose st0 ∧
  reconnectDelays (Nat.iter 5 onclose st0) = [2000; 4000; 8000] ∧
  (∃ k : nat, (k ≤ 3)%nat ∧
     reconnectDelays
       (run [ConnectionDrops; ReconnectTimerFires true; HandshakeFails;
             ReconnectTimerFires true; HandshakeFails;
             ReconnectTimerFires true; HandshakeFails] st0)
     = take k [2000; 4000; 8000]).
Proof.
  intros st0.
  destruct reconnect_backoff_schedule as (Ha & Hb & Hc & Hd).
  split_and!.
  - rewrite (Ha st0); [reflexivity | simpl; lia].
  - apply Hb. simpl. lia.
  - apply (Hc st0 5%nat); [reflexivity | reflexivity | lia].
  - destruct (Hd st0 [ConnectionDrops; ReconnectTimerFires true; HandshakeFails;
                      ReconnectTimerFires true; HandshakeFails;
                      ReconnectTimerFires true; HandshakeFails])
      as (k & Hk & _ & Hdel); [reflexivity | reflexivity | |].
    + intros Hin. repeat (apply elem_of_cons in Hin as [Hin|Hin]; [discriminate|]).
      by apply elem_of_nil in Hin.
    + exists k. split; [exact Hk | exact Hdel].
Defined.

(** ** C3: what triggers reconnection *)

(** C3, as stated, fails: a first connect whose handshake fails, or which
    runs into the 5 s timeout, rejects the call and also starts the first
    reconnect timer, although no connection was ever established. *)
Lemma initial_failure_counterexample :
  ¬ (∀ inputs, HandshakeOk ∉ inputs → reconnectDelays (run inputs new) = []) ∧
  (let st := run [CallConnect "wss://relay.example" true; HandshakeFails] new in
   promise st = Some Rejected ∧ reconnectDelays st = [2000]) ∧
  (let st := run [CallConnect "wss://relay.example" true;
                  ConnectTimeoutFires; CloseCompletes] new in
   promise st = Some Rejected ∧ reconnectDelays st = [2000]).
Proof.
  split_and!; [|split; reflexivity|split; reflexivity].
  intros H.
  specialize (H [CallConnect "wss://relay.example" true; HandshakeFails]).
  assert (Hni : HandshakeOk ∉ [CallConnect "wss://relay.example" true; HandshakeFails]).
  { intros Hin. repeat (apply elem_of_cons in Hin as [Hin|Hin]; [discriminate|]).
    by apply elem_of_nil in Hin. }
  specialize (H Hni). discriminate H.
Qed.

(** C3, amended.  The close handler does not ask whether the connection had
    been established: while the counter is below the cap, a handshake that
    fails and a connect that times out reject the pending connect call and
    start a reconnect timer, exactly as the drop of an open connection
    starts one. *)
Theorem close_starts_reconnect st :
  reconnectAttempts st < maxReconnectAttempts st →
  let started st' :=
    timeouts st' = timeouts st ++ [(backoff (reconnectAttempts st + 1), Reconnect)] in
  (readyState_is CONNECTING st = true → promise st = Some Pending →
     promise (step HandshakeFails st) = Some Rejected ∧ started (step HandshakeFails st)) ∧
  (readyState_is CONNECTING st = true → promise st = Some Pending →
     promise (run [ConnectTimeoutFires; CloseCompletes] st) = Some Rejected ∧
     started (run [ConnectTimeoutFires; CloseCompletes] st)) ∧
  (readyState_is OPEN st = true →
     promise (step ConnectionDrops st) = promise st ∧ started (step ConnectionDrops st)).
Proof.
  intros Hlt started. unfold started, run, step, readyState_is.
  destruct st as [[[u r]|] ur subs n mx ic snt tms pr]; simpl in *;
    (split_and!; [intros Hr Hp | intros Hr Hp | intros Hr]);
    try discriminate Hr; apply bool_decide_eq_true in Hr; subst r; try subst pr;
    unfold onConnectTimeout, isConnected, onclose, onerror, attemptReconnect; simpl;
    rewrite decide_False by lia; done.
Qed.

Lemma close_starts_reconnect_witness :
  let st := connect "wss://relay.example" true new in
  promise (step HandshakeFails st) = Some Rejected ∧
  timeouts (step HandshakeFails st) = [(5000, ConnectTimeout); (2000, Reconnect)] ∧
  timeouts (run [ConnectTimeoutFires; CloseCompletes] st)
    = [(5000, ConnectTimeout); (2000, Reconnect)] ∧
  timeouts (step ConnectionDrops (step HandshakeOk st))
    = [(5000, ConnectTimeout); (2000, Reconnect)].
Proof.
  intros st.
  assert (H0 : reconnectAttempts st < maxReconnectAttempts st) by (simpl; lia).
  destruct (close_starts_reconnect st H0) as (H1 & H2 & _).
  assert (H0' : reconnectAttempts (step HandshakeOk st)
                < maxReconnectAttempts (step HandshakeOk st)) by (simpl; lia).
  destruct (close_starts_reconnect (step HandshakeOk st) H0') as (_ & _ & H3).
  split_and!.
  - apply H1; reflexivity.
  - apply H1; reflexivity.
  - apply H2; reflexivity.
  - apply H3; reflexivity.
Defined.
End RelayManager_claims.

(** ** The profile batcher *)

Section ProfileFetcher_facts.
Import ProfileFetcher.
Implicit Types (st : ProfileFetcher.t) (profiles : gmap string Profile).

Lemma request_fresh profiles pubkey st :
  profiles !! pubkey = None → pubkey ∉ inProgress st → pubkey ∉ queue st →
  request profiles pubkey st =
    mk (queue st ++ [pubkey]) (inProgress st) (Some (batchDelay st))
       (batchDelay st) (maxBatchSize st).
Proof.
  intros Hp Hi Hq. unfold request.
  rewrite decide_False by (rewrite Hp; by intros [? ?]).
  rewrite decide_False by done.
  unfold scheduleFlush. simpl. by rewrite Set_add_fresh.
Qed.

Lemma requestMultiple_fresh profiles pubkeys : ∀ st,
  NoDup pubkeys →
  (∀ pk, pk ∈ pubkeys → profiles !! pk = None ∧ (pk ∉ inProgress st) ∧ (pk ∉ queue st)) →
  requestMultiple profiles pubkeys st =
    mk (queue st ++ pubkeys) (inProgress st)
       (match pubkeys with [] => timer st | _ => Some (batchDelay st) end)
       (batchDelay st) (maxBatchSize st).
Proof.
  unfold requestMultiple.
  induction pubkeys as [|pk pks IH]; intros st Hnd Hfresh; simpl.
  - rewrite app_nil_r. by destruct st.
  - apply NoDup_cons in Hnd as [Hpk Hnd].
    destruct (Hfresh pk) as (Hp & Hi & Hq); [apply list_elem_of_here|].
    rewrite request_fresh by done. rewrite IH; simpl.
    + rewrite <- app_assoc. simpl. by destruct pks.
    + done.
    + intros pk' Hin. destruct (Hfresh pk') as (Hp' & Hi' & Hq');
        [by apply list_elem_of_further|].
      split_and!; [done | done |].
      rewrite elem_of_app, list_elem_of_singleton. intros [?| ->]; done.
Qed.
End ProfileFetcher_facts.

Section ProfileFetcher_claims.
Import ProfileFetcher.

(** ** C1: what one flush does with a long queue *)

(** C1 (what the code does).  After requests for distinct, unknown pubkeys
    on a fresh fetcher, the timer's flush sends a single [REQ], for the
    first [maxBatchSize] = 100 of them, marks those in flight and empties
    the whole queue without starting another timer: the keys beyond the
    first 100 are neither queued nor in flight nor asked for. *)
Theorem flush_sends_one_batch_only profiles pubkeys now_ms rm :
  NoDup pubkeys → pubkeys ≠ [] →
  (∀ pk, pk ∈ pubkeys → profiles !! pk = None) →
  RelayManager.isConnected rm = true →
  let st := requestMultiple profiles pubkeys new in
  let r := onTimer now_ms st rm in
  RelayManager.sent r.2 =
    RelayManager.sent rm ++
      [RelayManager.REQ (subId_at now_ms) [RelayManager.mkFilter [0] (take 100 pubkeys)]] ∧
  queue r.1 = [] ∧ timer r.1 = None ∧
  inProgress r.1 = list_to_set (take 100 pubkeys) ∧
  (∀ pk, pk ∈ drop 100 pubkeys → (pk ∉ queue r.1) ∧ (pk ∉ inProgress r.1)).
Proof.
  intros Hnd Hne Hfresh Hconn st r.
  assert (Hst : st = mk pubkeys ∅ (Some 500) 500 100).
  { unfold st. rewrite requestMultiple_fresh; simpl.
    - by destruct pubkeys.
    - done.
    - intros pk Hin. split_and!; [by apply Hfresh | set_solver | apply not_elem_of_nil]. }
  assert (Hr : r = (mk [] (list_to_set (take 100 pubkeys) ∪ ∅) None 500 100,
                    RelayManager.send
                      (RelayManager.REQ (subId_at now_ms)
                         [RelayManager.mkFilter [0] (take 100 pubkeys)])
                      (RelayManager.set_subscriptions
                         (Map_set (subId_at now_ms)
                            (ProfileBatch (subId_at now_ms) (take 100 pubkeys))
                            (RelayManager.subscriptions rm)) rm))).
  { unfold r. rewrite Hst. unfold onTimer, flush, clearTimeout. simpl.
    destruct pubkeys as [|pk pks]; [done|].
    unfold RelayManager.subscribe. by rewrite Hconn. }
  rewrite Hr. simpl. split_and!; try done.
  - by rewrite (right_id_L ∅ (∪)).
  - intros pk Hin. split; [apply not_elem_of_nil|].
    rewrite (right_id_L ∅ (∪)), elem_of_list_to_set. intros Hin'.
    rewrite <- (take_drop 100 pubkeys) in Hnd.
    apply NoDup_app in Hnd as (_ & Hdis & _). by apply (Hdis pk).
Qed.

Lemma flush_sends_one_batch_only_witness :
  let st := requestMultiple ∅ sample_pubkeys new in
  let r := onTimer 1700000000000 st sample_relay in
  length sample_pubkeys = 150%nat ∧
  RelayManager.sent r.2 =
    [RelayManager.REQ "profiles-1700000000000"
       [RelayManager.mkFilter [0] (take 100 sample_pubkeys)]] ∧
  queue r.1 = [] ∧ timer r.1 = None ∧
  Forall (λ pk, (pk ∉ queue r.1) ∧ (pk ∉ inProgress r.1)) (drop 100 sample_pubkeys).
Proof.
  intros st r.
  assert (Hnd : NoDup sample_pubkeys) by (apply (bool_decide_unpack _); vm_compute; exact I).
  assert (Hne : sample_pubkeys ≠ []) by discriminate.
  destruct (flush_sends_one_batch_only ∅ sample_pubkeys 1700000000000 sample_relay
              Hnd Hne (λ pk _, lookup_empty pk) eq_refl) as (H1 & H2 & H3 & _ & H5).
  split_and!; [reflexivity | exact H1 | exact H2 | exact H3 |].
  apply Forall_forall. exact H5.
Defined.
End ProfileFetcher_claims.

(** ** Sorting by [created_at] *)

Section sort_facts.
Implicit Types (x a b : Event) (l : list Event).

Abbreviation sort_insert := (sort_insert by_created_at_desc).
Abbreviation Array_sort := (Array_sort by_created_at_desc).

Lemma sort_insert_Permutation x l : sort_insert x l ≡ₚ x :: l.
Proof.
  induction l as [|y l IH]; simpl; [done|].
  case_decide; [done|]. rewrite IH. apply Permutation_swap.
Qed.

Lemma Array_sort_Permutation l : Array_sort l ≡ₚ l.
Proof.
  induction l as [|x l IH]; simpl; [done|].
  by rewrite sort_insert_Permutation, IH.
Qed.

Lemma sort_insert_sorted x l :
  StronglySorted (λ a b, ev_created_at b ≤ ev_created_at a) l →
  StronglySorted (λ a b, ev_created_at b ≤ ev_created_at a) (sort_insert x l).
Proof.
  induction l as [|y l IH]; simpl; intros Hs.
  - repeat constructor.
  - apply StronglySorted_cons in Hs as [Hy Hs].
    unfold by_created_at_desc at 1. case_decide as Hc.
    + apply StronglySorted_cons. split.
      * constructor; [lia|]. eapply Forall_impl; [exact Hy|]. simpl. intros; lia.
      * by apply StronglySorted_cons.
    + apply StronglySorted_cons. split; [|by apply IH].
      rewrite sort_insert_Permutation. constructor; [lia | done].
Qed.

Lemma Array_sort_sorted l :
  StronglySorted (λ a b, ev_created_at b ≤ ev_created_at a) (Array_sort l).
Proof.
  induction l as [|x l IH]; simpl; [constructor|]. by apply sort_insert_sorted.
Qed.

(** Stability: the events of one timestamp keep their order. *)
Lemma sort_insert_stable t x l :
  filter (λ a, ev_created_at a = t) (sort_insert x l)
  = filter (λ a, ev_created_at a = t) (x :: l).
Proof.
  induction l as [|y l IH]; simpl; [done|].
  unfold by_created_at_desc at 1. case_decide as Hc; [done|].
  rewrite filter_cons, IH, !filter_cons.
  repeat case_decide; try done; lia.
Qed.

Lemma Array_sort_stable t l :
  filter (λ a, ev_created_at a = t) (Array_sort l)
  = filter (λ a, ev_created_at a = t) l.
Proof.
  induction l as [|x l IH]; simpl; [done|].
  by rewrite sort_insert_stable, !filter_cons, IH.
Qed.
End sort_facts.

Section precedes_facts.
Context {A : Type}.
Implicit Types (a b : A) (l : list A).

Lemma precedes_filter (P : A → Prop) `{!∀ x, Decision (P x)} a b l :
  P a → P b → precedes a b l → precedes a b (filter P l).
Proof.
  intros Ha Hb (l1 & l2 & l3 & ->).
  exists (filter P l1), (filter P l2), (filter P l3).
  rewrite filter_app, filter_cons_True by done.
  by rewrite filter_app, filter_cons_True by done.
Qed.

Lemma precedes_sublist a b l k : l `sublist_of` k → precedes a b l → precedes a b k.
Proof.
  intros Hsub (l1 & l2 & l3 & ->).
  apply sublist_app_l in Hsub as (k1 & k2 & -> & _ & Hsub).
  apply sublist_cons_l in Hsub as (k3 & k4 & -> & Hsub).
  apply sublist_app_l in Hsub as (k5 & k6 & -> & _ & Hsub).
  apply sublist_cons_l in Hsub as (k7 & k8 & -> & Hsub).
  exists (k1 ++ k3), (k5 ++ k7), k8. by rewrite <- !app_assoc.
Qed.

Lemma precedes_elem_of a b l : precedes a b l → a ∈ l ∧ b ∈ l.
Proof.
  intros (l1 & l2 & l3 & ->). split.
  - apply elem_of_app. right. apply list_elem_of_here.
  - apply elem_of_app. right. apply list_elem_of_further, elem_of_app. right.
    apply list_elem_of_here.
Qed.

Lemma precedes_sorted (R : A → A → Prop) a b l :
  StronglySorted R l → precedes a b l → R a b.
Proof.
  intros Hs (l1 & l2 & l3 & ->).
  apply StronglySorted_app_1_r, StronglySorted_cons in Hs as [Hall _].
  rewrite Forall_forall in Hall. apply Hall.
  apply elem_of_app. right. apply list_elem_of_here.
Qed.
End precedes_facts.

(** What [Array.prototype.sort] with the [created_at] comparator guarantees:
    later timestamps first, and equal timestamps in the order they had. *)
Lemma Array_sort_by_created_at l a b :
  precedes a b (Array_sort by_created_at_desc l) →
  ev_created_at b ≤ ev_created_at a ∧
  (ev_created_at a = ev_created_at b → precedes a b l).
Proof.
  intros Hp. split.
  - by apply (precedes_sorted _ a b _ (Array_sort_sorted l)).
  - intros Heq.
    apply (precedes_filter (λ x, ev_created_at x = ev_created_at a)) in Hp; [|done|done].
    rewrite Array_sort_stable in Hp.
    eapply precedes_sublist; [|exact Hp]. apply sublist_filter.
Qed.

(** ** Looking ids up in the events table *)

Section lookup_facts.
Context {V : Type}.
Implicit Types (m : list (string * V)) (ids : list string).

Lemma omap_get_cons_ne k v m ids :
  k ∉ ids →
  omap (λ id, Map_get id ((k, v) :: m)) ids = omap (λ id, Map_get id m) ids.
Proof.
  induction ids as [|id ids IH]; [done|].
  rewrite not_elem_of_cons. intros [Hne Hnin].
  cbn [omap list_omap]. rewrite IH by done.
  cbn [Map_get]. by rewrite decide_False by done.
Qed.

(** Ids listed in table order are mapped to values in table order. *)
Lemma omap_get_sublist m : ∀ ids,
  NoDup (Map_keys m) → ids `sublist_of` Map_keys m →
  omap (λ id, Map_get id m) ids `sublist_of` Map_values m.
Proof.
  unfold Map_keys, Map_values.
  induction m as [|[k v] m IH]; intros ids Hnd Hsub.
  - apply sublist_nil_r in Hsub as ->. done.
  - rewrite !fmap_cons in *. cbn [fst snd] in *.
    apply NoDup_cons in Hnd as [Hk Hnd].
    apply sublist_cons_r in Hsub as [Hsub|(ids' & -> & Hsub)].
    + rewrite omap_get_cons_ne.
      * apply sublist_cons. by apply IH.
      * intros Hin. apply Hk. by eapply elem_of_sublist.
    + cbn [omap list_omap]. rewrite omap_get_cons_ne.
      * cbn [Map_get]. rewrite decide_True by done.
        apply sublist_skip. by apply IH.
      * intros Hin. apply Hk. by eapply elem_of_sublist.
Qed.
End lookup_facts.

Section stored_events_facts.
Import DataStore.
Variable verifyEvent : Event → bool.
Variable ds : DataStore.t.
Hypothesis Hwf : wf verifyEvent ds.

Lemma stored_id id ev : Map_get id (events ds) = Some ev → ev_id ev = id.
Proof.
  intros Hget. apply Map_get_Some_elem_of in Hget.
  destruct Hwf as [_ Hids _ _ _ _]. rewrite Forall_forall in Hids.
  by apply (Hids (id, ev)).
Qed.

(** Among the events a duplicate-free list of ids stands for, the one
    stored under [id] occurs once if [id] is listed and not at all
    otherwise. *)
Lemma stored_once id ev ids :
  NoDup ids → Map_get id (events ds) = Some ev →
  filter (λ x, ev_id x = id) (omap (λ i, Map_get i (events ds)) ids)
  = if bool_decide (id ∈ ids) then [ev] else [].
Proof.
  intros Hnd Hget. induction ids as [|i ids IH]; [done|].
  apply NoDup_cons in Hnd as [Hi Hnd]. specialize (IH Hnd).
  cbn [omap list_omap].
  destruct (decide (i = id)) as [->|Hne].
  - rewrite Hget. rewrite filter_cons_True by (by apply stored_id).
    rewrite IH, bool_decide_eq_false_2 by done.
    rewrite bool_decide_eq_true_2 by apply list_elem_of_here. done.
  - assert (Hb : bool_decide (id ∈ i :: ids) = bool_decide (id ∈ ids)).
    { apply bool_decide_ext. rewrite elem_of_cons.
      split; [intros [?|?]; [congruence | done] | by right]. }
    rewrite Hb. destruct (Map_get i (events ds)) as [x|] eqn:E; [|done].
    rewrite filter_cons_False; [done|].
    apply stored_id in E. congruence.
Qed.
End stored_events_facts.

(** ** The view state *)

Section ViewState_facts.
Import ViewState.
Implicit Types (ds : DataStore.t) (st : ViewState.t) (ev : Event).

(** [getVisibleEvents] in one piece: the stored events of the view's id
    set that pass the narrowing and whose author has a profile, sorted. *)
Lemma getVisibleEvents_alt ds tab opts st :
  getVisibleEvents ds tab opts st =
    Array_sort by_created_at_desc
      (filter (λ ev, admits tab opts ev = true ∧
                     is_Some (DataStore.profiles ds !! ev_pubkey ev))
         (omap (λ id, Map_get id (DataStore.events ds)) (visibleEventIds st tab))).
Proof.
  unfold getVisibleEvents, admits. f_equal.
  generalize (omap (λ id, Map_get id (DataStore.events ds)) (visibleEventIds st tab)).
  intros l.
  destruct (flowgazerOnly opts && negb (bool_decide (tab = likes)));
    destruct (authors opts) as [[|a al]|];
    rewrite ?list_filter_filter; apply list_filter_iff; intros ev;
    rewrite ?andb_true_iff, ?bool_decide_eq_true; tauto.
Qed.

Lemma elem_of_getVisibleEvents ds tab opts st ev :
  ev ∈ getVisibleEvents ds tab opts st ↔
    (∃ id, id ∈ visibleEventIds st tab ∧ Map_get id (DataStore.events ds) = Some ev) ∧
    admits tab opts ev = true ∧
    is_Some (DataStore.profiles ds !! ev_pubkey ev).
Proof.
  rewrite getVisibleEvents_alt, Array_sort_Permutation.
  rewrite list_elem_of_filter, list_elem_of_omap. tauto.
Qed.

Lemma getVisibleEvents_of_id verifyEvent ds tab opts st id ev :
  DataStore.wf verifyEvent ds →
  NoDup (visibleEventIds st tab) →
  Map_get id (DataStore.events ds) = Some ev →
  filter (λ x, ev_id x = id) (getVisibleEvents ds tab opts st)
  = if bool_decide (id ∈ visibleEventIds st tab) && admits tab opts ev &&
       bool_decide (is_Some (DataStore.profiles ds !! ev_pubkey ev))
    then [ev] else [].
Proof.
  intros Hwf Hnd Hget. rewrite getVisibleEvents_alt.
  set (Q := λ ev0, admits tab opts ev0 = true ∧
                   is_Some (DataStore.profiles ds !! ev_pubkey ev0)).
  set (l := omap _ _).
  assert (Hl : filter (λ x, ev_id x = id) (filter Q l)
               = if bool_decide (id ∈ visibleEventIds st tab) && admits tab opts ev &&
                    bool_decide (is_Some (DataStore.profiles ds !! ev_pubkey ev))
                 then [ev] else []).
  { rewrite list_filter_filter.
    rewrite (list_filter_iff _ (λ a, Q a ∧ ev_id a = id)) by (intros; tauto).
    rewrite <- list_filter_filter. unfold l.
    rewrite (stored_once verifyEvent ds Hwf id ev) by done.
    destruct (bool_decide (id ∈ visibleEventIds st tab)); [|done].
    rewrite filter_cons, filter_nil, andb_true_l.
    destruct (decide (Q ev)) as [[Ha Hs]|HQ].
    - by rewrite Ha, bool_decide_eq_true_2.
    - destruct (admits tab opts ev) eqn:Ha; [|done].
      rewrite bool_decide_eq_false_2; [done|]. intros Hs. by apply HQ. }
  assert (Hp : filter (λ x, ev_id x = id) (Array_sort by_created_at_desc (filter Q l))
               ≡ₚ filter (λ x, ev_id x = id) (filter Q l)).
  { by rewrite Array_sort_Permutation. }
  rewrite Hl in Hp. rewrite <- Hl.
  destruct (_ && _ && _).
  - rewrite Hl. by apply Permutation_singleton_r.
  - rewrite Hl. by apply Permutation_nil_r.
Qed.
End ViewState_facts.

Section ViewState_invariants.
Import ViewState.
Implicit Types (ds : DataStore.t) (st : ViewState.t) (pf : ProfileFetcher.t).

Lemma visibleEventIds_addVisible tab id st tab' :
  visibleEventIds (addVisible tab id st) tab' =
    if decide (tab' = tab) then Set_add id (visibleEventIds st tab')
    else visibleEventIds st tab'.
Proof. by destruct tab, tab'. Qed.

Lemma ViewState_wf_addVisible tab id st : wf st → wf (addVisible tab id st).
Proof.
  intros Hwf tab'. rewrite visibleEventIds_addVisible.
  case_decide; [apply Set_add_NoDup|]; apply Hwf.
Qed.

Lemma pending_addVisible tab id st :
  pendingEventIds (addVisible tab id st) = pendingEventIds st.
Proof. by destruct tab. Qed.

Lemma foldl_addVisible id tabs : ∀ st,
  wf st →
  wf (foldl (λ s tab, addVisible tab id s) st tabs) ∧
  pendingEventIds (foldl (λ s tab, addVisible tab id s) st tabs) = pendingEventIds st.
Proof.
  induction tabs as [|tab tabs IH]; intros st Hwf; simpl; [done|].
  destruct (IH (addVisible tab id st) (ViewState_wf_addVisible tab id st Hwf)) as [H1 H2].
  split; [done|]. by rewrite H2, pending_addVisible.
Qed.

Lemma ViewState_wf_scheduleRender auto st : wf st → wf (scheduleRender auto st).
Proof. unfold scheduleRender. by destruct (negb auto). Qed.

Lemma pending_scheduleRender auto st :
  pendingEventIds (scheduleRender auto st) = pendingEventIds st.
Proof. unfold scheduleRender. by destruct (negb auto). Qed.

Lemma ViewState_wf_step ds op st pf : wf st → wf (step ds op st pf).1.
Proof.
  intros Hwf. destruct op as [my auto ev cur|auto pk|auto| |tab]; simpl; try done.
  - unfold addEvent.
    destruct (foldl_addVisible (ev_id ev) (determineTargetTabs ds ev my) st Hwf) as [H1 _].
    case_decide; simpl; case_bool_decide; try apply ViewState_wf_scheduleRender; done.
  - unfold onProfileFetched. case_decide; [done|]. by apply ViewState_wf_scheduleRender.
  - by apply ViewState_wf_scheduleRender.
Qed.

Lemma foldl_Set_delete_keeps (x : string) removed : ∀ l,
  x ∈ l → x ∉ foldl (λ p id, Set_delete id p) l removed → x ∈ removed.
Proof.
  induction removed as [|r removed IH]; intros l Hin Hout; simpl in *; [done|].
  destruct (decide (x = r)) as [->|Hne]; [apply list_elem_of_here|].
  apply list_elem_of_further, (IH (Set_delete r l)); [|done].
  unfold Set_delete. by apply list_elem_of_filter.
Qed.

(** An id leaves the pending set only in [onProfileFetched], called with
    the pubkey of the event stored under it. *)
Lemma pending_removed ds op st pf id :
  id ∈ pendingEventIds st → id ∉ pendingEventIds (step ds op st pf).1 →
  ∃ auto pubkey, op = OnProfileFetched auto pubkey ∧
    ev_pubkey <$> Map_get id (DataStore.events ds) = Some pubkey.
Proof.
  intros Hin Hout.
  destruct op as [my auto ev cur|auto pk|auto| |tab]; simpl in Hout.
  - exfalso. apply Hout. unfold addEvent.
    set (st1 := foldl _ st _).
    assert (H1 : pendingEventIds st1 = pendingEventIds st).
    { unfold st1. generalize (determineTargetTabs ds ev my) as tabs. clear.
      intros tabs. revert st. induction tabs as [|t tabs IH]; intros st; simpl; [done|].
      by rewrite IH, pending_addVisible. }
    case_decide; simpl; case_bool_decide; rewrite ?pending_scheduleRender; simpl;
      rewrite ?H1; try done; apply Set_add_elem_of; by right.
  - exists auto, pk. split; [done|].
    unfold onProfileFetched in Hout.
    set (rm := filter _ _) in Hout.
    assert (Hrm : id ∈ rm).
    { apply (foldl_Set_delete_keeps id rm (pendingEventIds st)); [done|].
      revert Hout. case_decide; rewrite ?pending_scheduleRender; done. }
    unfold rm in Hrm. by apply list_elem_of_filter in Hrm as [? _].
  - exfalso. apply Hout. by rewrite pending_scheduleRender.
  - by exfalso.
  - by exfalso.
Qed.
End ViewState_invariants.

Section Window_invariants.
Import Window.
Variable verifyEvent : Event → bool.

Lemma Window_wf_new now_ms : wf verifyEvent (new now_ms).
Proof.
  split; [apply DataStore_wf_new|]. intros tab. destruct tab; apply NoDup_nil_2.
Qed.

Lemma Window_wf_step c w : wf verifyEvent w → wf verifyEvent (step verifyEvent c w).
Proof.
  intros [Hd Hv]. destruct c as [op|op]; split; simpl; try done.
  - by apply DataStore_wf_step.
  - by apply ViewState_wf_step.
Qed.

Lemma Window_wf_run calls : ∀ w, wf verifyEvent w → wf verifyEvent (run verifyEvent calls w).
Proof.
  unfold run. induction calls as [|c calls IH]; intros w Hwf; simpl; [done|].
  by apply IH, Window_wf_step.
Qed.
End Window_invariants.

Section getEventsByTab_facts.
Import DataStore.
Variable verifyEvent : Event → bool.
Implicit Types (st : DataStore.t).

(** The result is empty (unknown tab) or the sorted lookup of ids listed
    in table order. *)
Lemma getEventsByTab_shape tab flowgazerOnly st :
  wf verifyEvent st →
  getEventsByTab tab flowgazerOnly st = [] ∨
  ∃ ids, ids `sublist_of` Map_keys (events st) ∧
    getEventsByTab tab flowgazerOnly st =
      Array_sort by_created_at_desc (omap (λ id, Map_get id (events st)) ids).
Proof.
  intros [_ _ _ Hmy Hlk _]. unfold getEventsByTab.
  set (sel := if decide (tab = "global") then _ else _).
  assert (Hsel : match sel with
                 | Some ids => ids `sublist_of` Map_keys (events st)
                 | None => True
                 end).
  { unfold sel. repeat case_decide; try done; apply sublist_filter. }
  destruct sel as [ids|]; [right|by left].
  eexists. split; [|reflexivity].
  destruct (_ && _); [|done].
  etrans; [apply sublist_filter | done].
Qed.

Lemma getEventsByTab_order tab flowgazerOnly st a b :
  wf verifyEvent st →
  precedes a b (getEventsByTab tab flowgazerOnly st) →
  ev_created_at b ≤ ev_created_at a ∧
  (ev_created_at a = ev_created_at b → precedes a b (Map_values (events st))).
Proof.
  intros Hwf Hp.
  destruct (getEventsByTab_shape tab flowgazerOnly st Hwf) as [He|(ids & Hsub & He)];
    rewrite He in Hp.
  - destruct Hp as (l1 & l2 & l3 & Hnil). by destruct l1.
  - apply Array_sort_by_created_at in Hp as [Hle Htie]. split; [done|].
    intros Heq. eapply precedes_sublist; [|by apply Htie].
    apply omap_get_sublist; [by destruct Hwf | done].
Qed.

Lemma getEventsByTab_ignores_profiles tab flowgazerOnly pubkey profileData st :
  getEventsByTab tab flowgazerOnly (addProfile pubkey profileData st).1
  = getEventsByTab tab flowgazerOnly st.
Proof.
  unfold addProfile. destruct (profiles st !! pubkey); [case_decide|]; done.
Qed.
End getEventsByTab_facts.

Lemma getVisibleEvents_order ds tab opts st a b :
  precedes a b (ViewState.getVisibleEvents ds tab opts st) →
  ev_created_at b ≤ ev_created_at a ∧
  (ev_created_at a = ev_created_at b →
   precedes a b (omap (λ id, Map_get id (DataStore.events ds))
                      (ViewState.visibleEventIds st tab))).
Proof.
  rewrite getVisibleEvents_alt. intros Hp.
  apply Array_sort_by_created_at in Hp as [Hle Htie]. split; [done|].
  intros Heq. eapply precedes_sublist; [|by apply Htie]. apply sublist_filter.
Qed.

Section view_claims.
Import DataStore ViewState.

Lemma addProfile_present pubkey profileData st :
  events (addProfile pubkey profileData st).1 = events st ∧
  is_Some (profiles (addProfile pubkey profileData st).1 !! pubkey).
Proof.
  unfold addProfile. destruct (profiles st !! pubkey) as [ex|] eqn:E.
  - case_decide; simpl; (split; [done|]); [by rewrite E | by rewrite lookup_insert_eq].
  - simpl. split; [done|]. by rewrite lookup_insert_eq.
Qed.

(** ** C6: visibility waits for the author's profile *)

(** C6, as stated, fails for [getEventsByTab]: it returns a stored note
    whose author has no profile. *)
Lemma getEventsByTab_not_gated_counterexample :
  let w := Window.run sample_verify [Window.Store (DataStore.AddEvent None note1)] (Window.new 5000) in
  profiles (Window.dataStore w) !! ev_pubkey note1 = None ∧
  getEventsByTab "global" false (Window.dataStore w) = [note1].
Proof. split; reflexivity. Qed.

(** C6, amended.  In any state reached by calls on the store and the view
    state, for an event of the table whose id is in a view's id set:
    [getVisibleEvents] leaves it out while its author has no profile; once
    [addProfile] has run for the author, the result holds exactly one event
    with that id, the event itself, when the narrowing options admit it
    (and none otherwise); [getEventsByTab] does not depend on profiles. *)
Theorem visible_once_profile_known (verifyEvent : Event → bool) calls now_ms :
  let w := Window.run verifyEvent calls (Window.new now_ms) in
  let ds := Window.dataStore w in
  let vs := Window.viewState w in
  ∀ ev tab opts,
    Map_get (ev_id ev) (events ds) = Some ev →
    ev_id ev ∈ visibleEventIds vs tab →
    (profiles ds !! ev_pubkey ev = None → (ev ∉ getVisibleEvents ds tab opts vs)) ∧
    (∀ profileData,
       let ds' := (addProfile (ev_pubkey ev) profileData ds).1 in
       filter (λ x, ev_id x = ev_id ev) (getVisibleEvents ds' tab opts vs)
       = if admits tab opts ev then [ev] else []) ∧
    (∀ pubkey profileData t flowgazerOnly,
       getEventsByTab t flowgazerOnly (addProfile pubkey profileData ds).1
       = getEventsByTab t flowgazerOnly ds).
Proof.
  intros w ds vs ev tab opts Hget Hin.
  destruct (Window_wf_run verifyEvent calls _ (Window_wf_new verifyEvent now_ms))
    as [Hds Hvs].
  fold w in Hds, Hvs. fold ds in Hds. fold vs in Hvs.
  split_and!.
  - intros Hnone Hvis. apply elem_of_getVisibleEvents in Hvis as (_ & _ & Hsome).
    rewrite Hnone in Hsome. by destruct Hsome.
  - intros profileData ds'.
    destruct (addProfile_present (ev_pubkey ev) profileData ds) as [Hev Hsome].
    fold ds' in Hev, Hsome.
    rewrite (getVisibleEvents_of_id verifyEvent ds' tab opts vs (ev_id ev) ev).
    + rewrite !bool_decide_eq_true_2 by done. simpl. by rewrite andb_true_r.
    + by apply DataStore_wf_addProfile.
    + apply Hvs.
    + by rewrite Hev.
  - intros. apply getEventsByTab_ignores_profiles.
Qed.

Lemma visible_once_profile_known_witness :
  let w := Window.run sample_verify
             [Window.Store (DataStore.AddEvent None note1);
              Window.View (ViewState.AddEvent None true note1 global)]
             (Window.new 5000) in
  let ds := Window.dataStore w in
  let vs := Window.viewState w in
  (note1 ∉ getVisibleEvents ds global no_filter vs) ∧
  filter (λ x, ev_id x = "e1")
    (getVisibleEvents (addProfile "alice" sample_profile ds).1 global no_filter vs)
  = [note1].
Proof.
  intros w ds vs.
  destruct (visible_once_profile_known sample_verify
              [Window.Store (DataStore.AddEvent None note1);
               Window.View (ViewState.AddEvent None true note1 global)] 5000
              note1 global no_filter) as (H1 & H2 & _).
  - reflexivity.
  - apply (bool_decide_unpack _). vm_compute. exact I.
  - split; [apply H1; reflexivity | apply (H2 sample_profile)].
Defined.

(** ** C7: what decides visibility *)

(** C7, as stated, fails: a profile stored by [addProfile] makes a pending
    event visible while its id is still in the pending set. *)
Lemma pending_yet_visible_counterexample :
  let w := Window.run sample_verify
             [Window.Store (DataStore.AddEvent None note1);
              Window.View (ViewState.AddEvent None true note1 global);
              Window.Store (DataStore.AddProfile "alice" sample_profile)]
             (Window.new 5000) in
  ev_id note1 ∈ visibleEventIds (Window.viewState w) global ∧
  ev_id note1 ∈ pendingEventIds (Window.viewState w) ∧
  getVisibleEvents (Window.dataStore w) global no_filter (Window.viewState w) = [note1].
Proof.
  split_and!; [| |reflexivity]; apply (bool_decide_unpack _); vm_compute; exact I.
Qed.

(** C7, amended.  [getVisibleEvents] does not read the pending set; an
    event of the table whose id is in the view's id set is in the result
    exactly when its author has a profile in the store and the narrowing
    options admit it; and an id leaves the pending set only in
    [onProfileFetched], called with the pubkey of the event stored under
    that id. *)
Theorem visibility_decided_by_profile :
  (∀ ds tab opts vs pending,
     getVisibleEvents ds tab opts (set_pending pending vs)
     = getVisibleEvents ds tab opts vs) ∧
  (∀ ds tab opts vs ev,
     Map_get (ev_id ev) (events ds) = Some ev →
     ev_id ev ∈ visibleEventIds vs tab →
     (ev ∈ getVisibleEvents ds tab opts vs ↔
      admits tab opts ev = true ∧ is_Some (profiles ds !! ev_pubkey ev))) ∧
  (∀ ds op vs pf id,
     id ∈ pendingEventIds vs →
     id ∉ pendingEventIds (ViewState.step ds op vs pf).1 →
     ∃ auto pubkey, op = OnProfileFetched auto pubkey ∧
       ev_pubkey <$> Map_get id (events ds) = Some pubkey).
Proof.
  split_and!.
  - intros ds tab opts vs pending. by destruct tab.
  - intros ds tab opts vs ev Hget Hin. rewrite elem_of_getVisibleEvents.
    split; [tauto|]. intros [Ha Hs]. split; [|done]. by exists (ev_id ev).
  - apply pending_removed.
Qed.

Lemma visibility_decided_by_profile_witness :
  let w := Window.run sample_verify
             [Window.Store (DataStore.AddEvent None note1);
              Window.View (ViewState.AddEvent None true note1 global);
              Window.Store (DataStore.AddProfile "alice" sample_profile)]
             (Window.new 5000) in
  let ds := Window.dataStore w in
  let vs := Window.viewState w in
  note1 ∈ getVisibleEvents ds global no_filter vs ∧
  (∀ op, ev_id note1 ∉ pendingEventIds (ViewState.step ds op vs ProfileFetcher.new).1 →
         ∃ auto, op = OnProfileFetched auto "alice").
Proof.
  intros w ds vs.
  destruct visibility_decided_by_profile as (_ & H2 & H3).
  split.
  - apply (H2 ds global no_filter vs note1).
    + reflexivity.
    + apply (bool_decide_unpack _). vm_compute. exact I.
    + split; [reflexivity|]. by eexists.
  - intros op Hout.
    destruct (H3 ds op vs ProfileFetcher.new (ev_id note1)) as (auto & pk & -> & Hpk).
    + apply (bool_decide_unpack _). vm_compute. exact I.
    + exact Hout.
    + exists auto. by injection Hpk as <-.
Defined.

(** ** C9: the order of query results *)

(** C9, as stated, fails: two notes with the same timestamp are both
    returned, so the result is not strictly descending; and
    [getVisibleEvents] breaks the tie by the order of the view's id set,
    which need not be the order of the events table. *)
Lemma strict_order_counterexample :
  let w := Window.run sample_verify
             (store_both ++
              [Window.View (ViewState.AddEvent None true note2 global);
               Window.View (ViewState.AddEvent None true note1 global)])
             (Window.new 5000) in
  let ds := Window.dataStore w in
  ev_created_at note1 = ev_created_at note2 ∧
  Map_values (events ds) = [note1; note2] ∧
  getEventsByTab "global" false ds = [note1; note2] ∧
  getVisibleEvents ds global no_filter (Window.viewState w) = [note2; note1].
Proof. split_and!; reflexivity. Qed.

(** C9, amended.  In any state reached by calls on the store and the view
    state, both queries return the events by non-increasing [created_at];
    two returned events with the same [created_at] come in the order of the
    ids the query starts from: for [getEventsByTab] the order of the events
    table, for [getVisibleEvents] the order of the view's id set (and so
    the order of the events table whenever the id set is listed in table
    order). *)
Theorem queries_sorted_stably (verifyEvent : Event → bool) calls now_ms :
  let w := Window.run verifyEvent calls (Window.new now_ms) in
  let ds := Window.dataStore w in
  let vs := Window.viewState w in
  ∀ a b,
    (∀ tab flowgazerOnly,
       precedes a b (getEventsByTab tab flowgazerOnly ds) →
       ev_created_at b ≤ ev_created_at a ∧
       (ev_created_at a = ev_created_at b → precedes a b (Map_values (events ds)))) ∧
    (∀ tab opts,
       precedes a b (getVisibleEvents ds tab opts vs) →
       ev_created_at b ≤ ev_created_at a ∧
       (ev_created_at a = ev_created_at b →
        precedes a b (omap (λ id, Map_get id (events ds)) (visibleEventIds vs tab)) ∧
        (visibleEventIds vs tab `sublist_of` Map_keys (events ds) →
         precedes a b (Map_values (events ds))))).
Proof.
  intros w ds vs a b.
  destruct (Window_wf_run verifyEvent calls _ (Window_wf_new verifyEvent now_ms))
    as [Hds _].
  fold w in Hds. fold ds in Hds.
  split.
  - intros tab fg. by apply (getEventsByTab_order verifyEvent).
  - intros tab opts Hp. apply getVisibleEvents_order in Hp as [Hle Htie].
    split; [done|]. intros Heq. split; [by apply Htie|].
    intros Hsub. eapply precedes_sublist; [|by apply Htie].
    apply omap_get_sublist; [by destruct Hds | done].
Qed.

Lemma queries_sorted_stably_witness :
  let w := Window.run sample_verify
             (store_both ++
              [Window.View (ViewState.AddEvent None true note1 global);
               Window.View (ViewState.AddEvent None true note2 global)])
             (Window.new 5000) in
  let ds := Window.dataStore w in
  (ev_created_at note2 ≤ ev_created_at note1 ∧
   precedes note1 note2 (Map_values (events ds))) ∧
  (ev_created_at note2 ≤ ev_created_at note1 ∧
   precedes note1 note2 (Map_values (events ds))).
Proof.
  intros w ds.
  destruct (queries_sorted_stably sample_verify
              (store_both ++
               [Window.View (ViewState.AddEvent None true note1 global);
                Window.View (ViewState.AddEvent None true note2 global)]) 5000
              note1 note2) as [H1 H2].
  split.
  - destruct (H1 "global" false) as [Hle Htie].
    + by exists [], [], [].
    + split; [exact Hle | apply Htie; reflexivity].
  - destruct (H2 global no_filter) as [Hle Htie].
    + by exists [], [], [].
    + split; [exact Hle|]. apply Htie; [reflexivity|].
      vm_compute. reflexivity.
Defined.
End view_claims.

(** * Further properties of the store *)

Section DataStore_more.
Import DataStore.
Variable verifyEvent : Event → bool.
Implicit Types (st : DataStore.t) (event : Event) (my : option string).

Lemma DataStore_run_invariant (P : DataStore.t → Prop) :
  (∀ now_ms, P (new now_ms)) →
  (∀ op st, wf verifyEvent st → P st → P (step verifyEvent op st)) →
  ∀ ops now_ms, P (run verifyEvent ops (new now_ms)).
Proof.
  intros Hnew Hstep ops now_ms.
  assert (H : ∀ st, wf verifyEvent st → P st → P (run verifyEvent ops st)).
  { unfold run. induction ops as [|op ops IH]; intros st Hwf HP; simpl; [done|].
    apply IH; [by apply DataStore_wf_step | by apply Hstep]. }
  apply H; [apply DataStore_wf_new | apply Hnew].
Qed.

Lemma addProfile_frame pubkey profileData st :
  let st' := (addProfile pubkey profileData st).1 in
  events st' = events st ∧ myPostIds st' = myPostIds st ∧
  receivedLikeIds st' = receivedLikeIds st ∧ followingPubkeys st' = followingPubkeys st ∧
  likedByMeIds st' = likedByMeIds st ∧ reactionCounts st' = reactionCounts st ∧
  oldestTimestamps st' = oldestTimestamps st.
Proof. unfold addProfile. destruct (profiles st !! pubkey); [case_decide|]; done. Qed.

Lemma getReactionCount_updateReactionCount event st id :
  id ≠ "" →
  getReactionCount id (updateReactionCount event st) =
    if decide (tag_value "e" (ev_tags event) = Some id) then
      if decide (ev_kind event = 6)
      then mkCounts (reposts (getReactionCount id st) + 1) (reactions (getReactionCount id st))
      else if decide (ev_kind event = 7)
      then mkCounts (reposts (getReactionCount id st)) (reactions (getReactionCount id st) + 1)
      else getReactionCount id st
    else getReactionCount id st.
Proof.
  intros Hid. unfold updateReactionCount, getReactionCount.
  destruct (tag_value "e" (ev_tags event)) as [tid|]; [|by rewrite decide_False].
  destruct (decide (tid = "")) as [->|Hne].
  - rewrite decide_False; [done | congruence].
  - destruct (decide (tid = id)) as [->|Hne'].
    + rewrite (decide_True (P := Some id = Some id)) by done. simpl.
      rewrite lookup_insert_eq. simpl.
      repeat case_decide; destruct (reactionCounts st !! id); done.
    + rewrite (decide_False (P := Some tid = Some id)) by congruence. simpl.
      by rewrite lookup_insert_ne.
Qed.

Lemma getReactionCount_categorizeEvent my event st id :
  id ≠ "" →
  getReactionCount id (categorizeEvent my event st) =
    if decide (tag_value "e" (ev_tags event) = Some id) then
      if decide (ev_kind event = 6)
      then mkCounts (reposts (getReactionCount id st) + 1) (reactions (getReactionCount id st))
      else if decide (ev_kind event = 7)
      then mkCounts (reposts (getReactionCount id st)) (reactions (getReactionCount id st) + 1)
      else getReactionCount id st
    else getReactionCount id st.
Proof.
  intros Hid. unfold categorizeEvent.
  destruct (decide (ev_kind event = 6)) as [H6|H6];
    destruct (decide (ev_kind event = 7)) as [H7|H7]; try lia;
    rewrite ?getReactionCount_updateReactionCount by done;
    rewrite ?(decide_True _ _ H6), ?(decide_False _ _ H6),
            ?(decide_True _ _ H7), ?(decide_False _ _ H7);
    unfold getReactionCount; repeat (case_decide || case_match); simpl; done.
Qed.

Lemma referrers_snoc kind id st st' ev k :
  events st' = events st ++ [(k, ev)] →
  referrers kind id st' =
    referrers kind id st ++
      (if decide (ev_kind ev = kind ∧ tag_value "e" (ev_tags ev) = Some id) then [ev] else []).
Proof.
  intros He. unfold referrers, Map_values. rewrite He, fmap_app, filter_app. done.
Qed.

(** ** Reaction counters are exact *)

(** After any sequence of calls on a fresh store, the counters returned for
    a non-empty id are the numbers of stored kind-6 and kind-7 events whose
    first [e] tag names it. *)
Theorem getReactionCount_exact ops now_ms targetId :
  targetId ≠ "" →
  let st := run verifyEvent ops (new now_ms) in
  getReactionCount targetId st =
    mkCounts (Z.of_nat (length (referrers 6 targetId st)))
             (Z.of_nat (length (referrers 7 targetId st))).
Proof.
  intros Hid. simpl.
  apply (DataStore_run_invariant (λ st, getReactionCount targetId st =
    mkCounts (Z.of_nat (length (referrers 6 targetId st)))
             (Z.of_nat (length (referrers 7 targetId st))))); [done|].
  intros op st Hwf IH. destruct op as [my ev|pk p|pks|now']; simpl.
  - destruct (addEvent_cases verifyEvent my ev st) as [->|[Hfresh Hver]]; [done|].
    destruct (addEvent_accepted verifyEvent my ev st Hfresh Hver) as [_ Hev].
    rewrite (referrers_snoc 6 _ st _ ev (ev_id ev) Hev),
            (referrers_snoc 7 _ st _ ev (ev_id ev) Hev), !length_app.
    assert (Hc : getReactionCount targetId (addEvent verifyEvent my ev st).1 =
                 getReactionCount targetId (categorizeEvent my ev
                   (mk (Map_set (ev_id ev) ev (events st)) (profiles st)
                       (myPostIds st) (receivedLikeIds st) (followingPubkeys st)
                       (likedByMeIds st) (reactionCounts st) (oldestTimestamps st)))).
    { unfold addEvent. rewrite Hfresh, Hver. simpl. unfold getReactionCount.
      by rewrite (proj2 (proj2 (proj2 (proj2 (updateOldestTimestamps_same _ _ _))))). }
    rewrite Hc, getReactionCount_categorizeEvent by done.
    change (getReactionCount targetId (mk _ _ _ _ _ _ (reactionCounts st) _))
      with (getReactionCount targetId st).
    rewrite IH. simpl.
    repeat case_decide; simpl; try (f_equal; lia); try done; exfalso;
      intuition (try congruence; try lia).
  - destruct (addProfile_frame pk p st) as (He & _ & _ & _ & _ & Hr & _).
    unfold getReactionCount, referrers in *. by rewrite He, Hr.
  - done.
  - done.
Qed.

End DataStore_more.

Lemma getReactionCount_exact_witness :
  let ops := [DataStore.AddEvent None (note "n1" "alice" 10 "ok");
              DataStore.AddEvent None (reaction "r1" "bob" "n1" 11);
              DataStore.AddEvent None (reaction "r2" "carol" "n1" 12)] in
  DataStore.getReactionCount "n1" (DataStore.run sample_verify ops (DataStore.new 5000))
  = DataStore.mkCounts 0 2.
Proof.
  intros ops.
  apply (getReactionCount_exact sample_verify ops 5000 "n1"). discriminate.
Defined.

Section DataStore_categories.
Import DataStore.
Variable verifyEvent : Event → bool.
Implicit Types (st : DataStore.t) (event : Event) (my : option string).

Lemma Map_get_app_l {V} k (m m' : list (string * V)) v :
  Map_get k m = Some v → Map_get k (m ++ m') = Some v.
Proof.
  induction m as [|[k' v'] m IH]; simpl; [done|]. case_decide; [done|]. apply IH.
Qed.

Lemma Map_get_snoc {V} k (m : list (string * V)) v :
  k ∉ Map_keys m → Map_get k (m ++ [(k, v)]) = Some v.
Proof.
  unfold Map_keys. induction m as [|[k' v'] m IH]; simpl.
  - intros _. by rewrite decide_True.
  - rewrite not_elem_of_cons. intros [Hne Hnin]. rewrite decide_False by done. by apply IH.
Qed.

Lemma updateReactionCount_liked event st :
  likedByMeIds (updateReactionCount event st) = likedByMeIds st.
Proof.
  unfold updateReactionCount. destruct (tag_value "e" (ev_tags event)); [|done].
  case_decide; done.
Qed.

(** What [categorizeEvent] does to the three category sets, by kind. *)
Lemma categorizeEvent_categories my event st :
  let st' := categorizeEvent my event st in
  (myPostIds st' = myPostIds st ∨
   ev_kind event = 1 ∧ myPostIds st' = Set_add (ev_id event) (myPostIds st)) ∧
  (receivedLikeIds st' = receivedLikeIds st ∨
   ev_kind event = 7 ∧ receivedLikeIds st' = Set_add (ev_id event) (receivedLikeIds st)) ∧
  (likedByMeIds st' = likedByMeIds st ∨
   ∃ target, ev_kind event = 7 ∧ target ≠ "" ∧
     tag_value "e" (ev_tags event) = Some target ∧
     likedByMeIds st' = {[target]} ∪ likedByMeIds st).
Proof.
  unfold categorizeEvent.
  repeat case_decide; repeat case_match; simpl;
    rewrite ?updateReactionCount_liked;
    rewrite ?(proj1 (proj2 (proj2 (updateReactionCount_same _ _))));
    rewrite ?(proj2 (proj2 (proj2 (updateReactionCount_same _ _))));
    simpl;
    rewrite ?updateReactionCount_liked;
    rewrite ?(proj1 (proj2 (proj2 (updateReactionCount_same _ _))));
    rewrite ?(proj2 (proj2 (proj2 (updateReactionCount_same _ _))));
    simpl; split_and!; try (by left); try (right; by intuition); eauto 10.
Qed.

Lemma DataStore_wf_categories_new now_ms : wf_categories (new now_ms).
Proof.
  split; simpl; intros id Hin; try by apply elem_of_nil in Hin. set_solver.
Qed.

Lemma referrers_mono kind id st st' k ev :
  events st' = events st ++ [(k, ev)] → referrers kind id st ≠ [] → referrers kind id st' ≠ [].
Proof.
  intros He Hne. rewrite (referrers_snoc kind id st st' ev k He).
  destruct (referrers kind id st); [done|]. discriminate.
Qed.

Lemma DataStore_wf_categories_step op st :
  wf verifyEvent st → wf_categories st → wf_categories (step verifyEvent op st).
Proof.
  intros Hwf [Hm Hl Hk]. destruct op as [my ev|pk p|pks|now']; simpl.
  - destruct (addEvent_cases verifyEvent my ev st) as [->|[Hfresh Hver]]; [done|].
    destruct (addEvent_accepted verifyEvent my ev st Hfresh Hver) as [_ Hev].
    pose proof (proj1 (Map_has_false _ _) Hfresh) as Hnin.
    assert (Hst : (addEvent verifyEvent my ev st).1 =
      updateOldestTimestamps my ev (categorizeEvent my ev
        (mk (Map_set (ev_id ev) ev (events st)) (profiles st)
            (myPostIds st) (receivedLikeIds st) (followingPubkeys st)
            (likedByMeIds st) (reactionCounts st) (oldestTimestamps st)))).
    { unfold addEvent. by rewrite Hfresh, Hver. }
    set (st1 := mk _ _ _ _ _ _ _ _) in Hst.
    destruct (categorizeEvent_categories my ev st1) as (Hmy & Hrl & Hlk).
    assert (Hsame : ∀ s, myPostIds (updateOldestTimestamps my ev s) = myPostIds s ∧
                         receivedLikeIds (updateOldestTimestamps my ev s) = receivedLikeIds s ∧
                         likedByMeIds (updateOldestTimestamps my ev s) = likedByMeIds s).
    { intros s. unfold updateOldestTimestamps. by case_decide. }
    destruct (Hsame (categorizeEvent my ev st1)) as (E1 & E2 & E3).
    rewrite <- Hst in E1, E2, E3. simpl in *.
    split; rewrite ?E1, ?E2, ?E3, ?Hev.
    + intros id Hin. destruct Hmy as [Hmy|[Hk1 Hmy]]; rewrite Hmy in Hin.
      * destruct (Hm id Hin) as (x & Hx & Hkx). exists x. split; [by apply Map_get_app_l|done].
      * apply Set_add_elem_of in Hin as [->|Hin].
        -- exists ev. split; [by apply Map_get_snoc | done].
        -- destruct (Hm id Hin) as (x & Hx & Hkx). exists x.
           split; [by apply Map_get_app_l|done].
    + intros id Hin. destruct Hrl as [Hrl|[Hk7 Hrl]]; rewrite Hrl in Hin.
      * destruct (Hl id Hin) as (x & Hx & Hkx). exists x. split; [by apply Map_get_app_l|done].
      * apply Set_add_elem_of in Hin as [->|Hin].
        -- exists ev. split; [by apply Map_get_snoc | done].
        -- destruct (Hl id Hin) as (x & Hx & Hkx). exists x.
           split; [by apply Map_get_app_l|done].
    + intros id Hin. destruct Hlk as [Hlk|(target & Hk7 & Hne & Htag & Hlk)]; rewrite Hlk in Hin.
      * destruct (Hk id Hin) as [Hid Hr]. split; [done|].
        by apply (referrers_mono 7 id st _ (ev_id ev) ev Hev).
      * apply elem_of_union in Hin as [Hin|Hin].
        -- apply elem_of_singleton in Hin as ->. split; [done|].
           rewrite (referrers_snoc 7 target st _ ev (ev_id ev) Hev).
           rewrite decide_True by done. by destruct (referrers 7 target st).
        -- destruct (Hk id Hin) as [Hid Hr]. split; [done|].
           by apply (referrers_mono 7 id st _ (ev_id ev) ev Hev).
  - destruct (addProfile_frame pk p st) as (He & E1 & E2 & _ & E3 & _).
    split; unfold referrers; rewrite ?E1, ?E2, ?E3, ?He; done.
  - by split.
  - apply DataStore_wf_categories_new.
Qed.

(** ** The category sets name stored events of the right kind *)

(** After any sequence of calls on a fresh store: every id in [myPostIds] is
    the id of a stored kind-1 event, every id in [receivedLikeIds] that of a
    stored kind-7 event, and [isLikedByMe] holds only for a non-empty id that
    the first [e] tag of some stored kind-7 event names. *)
Theorem category_sets_sound ops now_ms :
  let st := run verifyEvent ops (new now_ms) in
  (∀ id, id ∈ myPostIds st → ∃ ev, Map_get id (events st) = Some ev ∧ ev_kind ev = 1) ∧
  (∀ id, id ∈ receivedLikeIds st → ∃ ev, Map_get id (events st) = Some ev ∧ ev_kind ev = 7) ∧
  (∀ id, isLikedByMe id st = true → id ≠ "" ∧ referrers 7 id st ≠ []).
Proof.
  simpl.
  destruct (DataStore_run_invariant verifyEvent wf_categories
              DataStore_wf_categories_new DataStore_wf_categories_step ops now_ms)
    as [Hm Hl Hk].
  split_and!; [done | done |].
  intros id Hin. apply Hk. unfold isLikedByMe in Hin. by apply bool_decide_eq_true in Hin.
Qed.
End DataStore_categories.

Lemma category_sets_sound_witness :
  let like := mkEvent "r1" "me" 7 11 "+" [["e"; "n1"]; ["p"; "alice"]] "ok" in
  let st := DataStore.run sample_verify
              [DataStore.AddEvent (Some "me") (note "m1" "me" 10 "ok");
               DataStore.AddEvent (Some "me") like] (DataStore.new 5000) in
  (∃ ev, Map_get "m1" (DataStore.events st) = Some ev ∧ ev_kind ev = 1) ∧
  DataStore.referrers 7 "n1" st ≠ [].
Proof.
  intros like st.
  destruct (category_sets_sound sample_verify
              [DataStore.AddEvent (Some "me") (note "m1" "me" 10 "ok");
               DataStore.AddEvent (Some "me") like] 5000) as (H1 & _ & H3).
  split.
  - apply H1. apply (bool_decide_unpack _). vm_compute. exact I.
  - apply (H3 "n1"). reflexivity.
Defined.


Section DataStore_history.
Import DataStore.
Variable verifyEvent : Event → bool.
Implicit Types (st : DataStore.t) (event : Event) (my : option string).

Lemma addEvent_frame my event st :
  let st' := (addEvent verifyEvent my event st).1 in
  profiles st' = profiles st ∧ followingPubkeys st' = followingPubkeys st.
Proof.
  destruct (addEvent_cases verifyEvent my event st) as [->|[Hfresh Hver]]; [done|].
  unfold addEvent. rewrite Hfresh, Hver. simpl.
  set (st1 := mk _ _ _ _ _ _ _ _).
  assert (H1 : ∀ s, profiles (updateOldestTimestamps my event s) = profiles s ∧
                    followingPubkeys (updateOldestTimestamps my event s) = followingPubkeys s).
  { intros s. unfold updateOldestTimestamps. by case_decide. }
  assert (H2 : ∀ s, followingPubkeys (updateReactionCount event s) = followingPubkeys s).
  { intros s. unfold updateReactionCount. destruct (tag_value _ _); [|done]. by case_decide. }
  destruct (H1 (categorizeEvent my event st1)) as [-> ->].
  split; [apply (categorizeEvent_sets my event st1)|].
  unfold categorizeEvent. repeat case_decide; repeat case_match; simpl;
    rewrite ?H2; simpl; rewrite ?H2; done.
Qed.

(** ** The events table is append-only *)

(** Without [clear()], whatever is called, the events table only grows at
    its end: the old table is a prefix of the new one, so no stored event is
    ever replaced, moved or removed. *)
Theorem events_append_only ops st :
  no_clear ops →
  events st `prefix_of` events (run verifyEvent ops st).
Proof.
  unfold run. revert st. induction ops as [|op ops IH]; intros st Hnc; simpl; [done|].
  apply Forall_cons in Hnc as [Hop Hnc].
  etrans; [|by apply IH].
  destruct op as [my ev|pk p|pks|now']; simpl; try done.
  - destruct (addEvent_cases verifyEvent my ev st) as [->|[Hfresh Hver]]; [done|].
    destruct (addEvent_accepted verifyEvent my ev st Hfresh Hver) as [_ ->].
    by apply prefix_app_r.
  - by rewrite (proj1 (addProfile_frame pk p st)).
Qed.

(** ** Profiles only move forward in time *)

(** Without [clear()], a pubkey that has a profile keeps having one, and the
    [created_at] of its stored profile never decreases. *)
Theorem profiles_monotone ops st pubkey profile :
  no_clear ops →
  profiles st !! pubkey = Some profile →
  ∃ profile', profiles (run verifyEvent ops st) !! pubkey = Some profile' ∧
              p_created_at profile ≤ p_created_at profile'.
Proof.
  unfold run. revert st profile.
  induction ops as [|op ops IH]; intros st profile Hnc Hp; simpl.
  - by exists profile.
  - apply Forall_cons in Hnc as [Hop Hnc].
    assert (H1 : ∃ p1, profiles (step verifyEvent op st) !! pubkey = Some p1 ∧
                       p_created_at profile ≤ p_created_at p1).
    { destruct op as [my ev|pk p|pks|now']; simpl; try done.
      - rewrite (proj1 (addEvent_frame my ev st)). by exists profile.
      - unfold addProfile. destruct (profiles st !! pk) as [ex|] eqn:E.
        + case_decide as Hge; simpl; [by exists profile|].
          destruct (decide (pk = pubkey)) as [->|Hne].
          * exists p. rewrite lookup_insert_eq. split; [done|].
            rewrite Hp in E. injection E as ->. lia.
          * exists profile. by rewrite lookup_insert_ne.
        + simpl. destruct (decide (pk = pubkey)) as [->|Hne]; [congruence|].
          exists profile. by rewrite lookup_insert_ne.
      - by exists profile. }
    destruct H1 as (p1 & Hp1 & Hle1).
    destruct (IH _ p1 Hnc Hp1) as (p2 & Hp2 & Hle2).
    exists p2. split; [done | lia].
Qed.

(** ** The cursors *)

Lemma updateOldestTimestamps_cursors my event st :
  let o := oldestTimestamps st in
  let o' := oldestTimestamps (updateOldestTimestamps my event st) in
  o_global o' ≤ o_global o ∧ o_following o' ≤ o_following o ∧
  o_myposts o' ≤ o_myposts o ∧ o_likes o' = o_likes o ∧
  (ev_kind event = 1 ∨ ev_kind event = 6 → o_global o' ≤ 1000 * ev_created_at event).
Proof.
  unfold updateOldestTimestamps. repeat case_decide; simpl; split_and!; lia.
Qed.

Lemma categorizeEvent_oldest my event st :
  oldestTimestamps (categorizeEvent my event st) = oldestTimestamps st.
Proof.
  assert (H : ∀ s, oldestTimestamps (updateReactionCount event s) = oldestTimestamps s).
  { intros s. unfold updateReactionCount. destruct (tag_value _ _); [|done]. by case_decide. }
  unfold categorizeEvent. repeat case_decide; repeat case_match; simpl;
    rewrite ?H; simpl; rewrite ?H; done.
Qed.

Lemma step_cursors op st :
  match op with Clear _ => False | _ => True end →
  let o := oldestTimestamps st in
  let o' := oldestTimestamps (step verifyEvent op st) in
  o_global o' ≤ o_global o ∧ o_following o' ≤ o_following o ∧
  o_myposts o' ≤ o_myposts o ∧ o_likes o' = o_likes o.
Proof.
  destruct op as [my ev|pk p|pks|now']; simpl; try done.
  - intros _. destruct (addEvent_cases verifyEvent my ev st) as [->|[Hfresh Hver]]; [done|].
    unfold addEvent. rewrite Hfresh, Hver. simpl.
    set (st1 := mk _ _ _ _ _ _ _ _).
    destruct (updateOldestTimestamps_cursors my ev (categorizeEvent my ev st1))
      as (H1 & H2 & H3 & H4 & _).
    rewrite categorizeEvent_oldest in H1, H2, H3, H4. done.
  - intros _. by rewrite (proj2 (proj2 (proj2 (proj2 (proj2 (proj2 (addProfile_frame pk p st))))))).
Qed.

(** Without [clear()], no call ever moves a cursor forward in time, and the
    likes cursor is never moved at all: it stays at the time of the
    constructor. *)
Theorem cursors_never_increase ops st :
  no_clear ops →
  let o := oldestTimestamps st in
  let o' := oldestTimestamps (run verifyEvent ops st) in
  o_global o' ≤ o_global o ∧ o_following o' ≤ o_following o ∧
  o_myposts o' ≤ o_myposts o ∧ o_likes o' = o_likes o.
Proof.
  unfold run. revert st. induction ops as [|op ops IH]; intros st Hnc; simpl; [done|].
  apply Forall_cons in Hnc as [Hop Hnc].
  destruct (IH (step verifyEvent op st) Hnc) as (H1 & H2 & H3 & H4).
  destruct (step_cursors op st Hop) as (G1 & G2 & G3 & G4).
  simpl in *. split_and!; [lia | lia | lia | congruence].
Qed.

(** After any sequence of calls on a fresh store, the global cursor is not
    later than any stored note or repost. *)
Theorem global_cursor_bound ops now_ms ev :
  let st := run verifyEvent ops (new now_ms) in
  ev ∈ Map_values (events st) →
  ev_kind ev = 1 ∨ ev_kind ev = 6 →
  o_global (oldestTimestamps st) ≤ 1000 * ev_created_at ev.
Proof.
  simpl. revert ev.
  apply (DataStore_run_invariant verifyEvent (λ st, ∀ ev,
    ev ∈ Map_values (events st) → ev_kind ev = 1 ∨ ev_kind ev = 6 →
    o_global (oldestTimestamps st) ≤ 1000 * ev_created_at ev)).
  - intros now' ev Hin. by apply elem_of_nil in Hin.
  - intros op st Hwf IH ev. destruct op as [my e|pk p|pks|now']; simpl.
    + destruct (addEvent_cases verifyEvent my e st) as [->|[Hfresh Hver]]; [by apply IH|].
      destruct (addEvent_accepted verifyEvent my e st Hfresh Hver) as [_ Hev].
      rewrite Hev. unfold Map_values. rewrite fmap_app, elem_of_app. simpl.
      assert (Ho : oldestTimestamps (addEvent verifyEvent my e st).1 =
                   oldestTimestamps (updateOldestTimestamps my e (categorizeEvent my e
                     (mk (Map_set (ev_id e) e (events st)) (profiles st)
                         (myPostIds st) (receivedLikeIds st) (followingPubkeys st)
                         (likedByMeIds st) (reactionCounts st) (oldestTimestamps st))))).
      { unfold addEvent. by rewrite Hfresh, Hver. }
      rewrite Ho. set (st1 := mk _ _ _ _ _ _ _ _).
      destruct (updateOldestTimestamps_cursors my e (categorizeEvent my e st1))
        as (H1 & _ & _ & _ & H5).
      rewrite categorizeEvent_oldest in H1. simpl in H1.
      intros [Hin|Hin] Hk.
      * specialize (IH ev Hin Hk). lia.
      * apply list_elem_of_singleton in Hin as ->. by apply H5.
    + destruct (addProfile_frame pk p st) as (He & _ & _ & _ & _ & _ & Ho).
      rewrite He, Ho. apply IH.
    + apply IH.
    + intros Hin. by apply elem_of_nil in Hin.
Qed.
End DataStore_history.

Lemma events_append_only_witness :
  let st := DataStore.run sample_verify [DataStore.AddEvent None note1] (DataStore.new 5000) in
  DataStore.events st `prefix_of`
    DataStore.events (DataStore.run sample_verify
      [DataStore.AddEvent None note2; DataStore.AddProfile "bob" sample_profile;
       DataStore.AddEvent None note1] st).
Proof.
  intros st. apply events_append_only. repeat constructor.
Defined.

Lemma profiles_monotone_witness :
  let st := (DataStore.addProfile "alice" (mkProfile ∅ 100) (DataStore.new 5000)).1 in
  ∃ profile', DataStore.profiles (DataStore.run sample_verify
      [DataStore.AddProfile "alice" (mkProfile ∅ 90);
       DataStore.AddProfile "alice" (mkProfile ∅ 120)] st) !! "alice" = Some profile' ∧
    100 ≤ p_created_at profile'.
Proof.
  intros st.
  apply (profiles_monotone sample_verify _ st "alice" (mkProfile ∅ 100)).
  - repeat constructor.
  - reflexivity.
Defined.

Lemma cursors_never_increase_witness :
  let st := DataStore.new 5000000 in
  let o' := DataStore.oldestTimestamps
              (DataStore.run sample_verify
                 [DataStore.AddEvent None note1; DataStore.AddEvent None (reaction "r1" "bob" "e1" 3)]
                 st) in
  DataStore.o_global o' ≤ 5000000 ∧ DataStore.o_following o' ≤ 5000000 ∧
  DataStore.o_myposts o' ≤ 5000000 ∧ DataStore.o_likes o' = 5000000.
Proof.
  intros st. apply (cursors_never_increase sample_verify _ st). repeat constructor.
Defined.

Lemma global_cursor_bound_witness :
  DataStore.o_global (DataStore.oldestTimestamps
    (DataStore.run sample_verify
       [DataStore.AddEvent None note1; DataStore.AddEvent None (note "e0" "bob" 7 "ok")]
       (DataStore.new 5000000))) ≤ 1000 * 10.
Proof.
  apply (global_cursor_bound sample_verify _ 5000000 note1).
  - apply (bool_decide_unpack _). vm_compute. exact I.
  - by left.
Defined.

(** * Further properties of the queries *)

Section sort_filter_facts.
Implicit Types (x : Event) (l : list Event).
Variable P : Event → Prop.
Context `{!∀ x, Decision (P x)}.

Lemma sort_insert_head x l :
  Forall (λ b, ev_created_at b ≤ ev_created_at x) l →
  sort_insert by_created_at_desc x l = x :: l.
Proof.
  destruct l as [|y l]; [done|]. intros Hall. apply Forall_cons in Hall as [Hy _].
  simpl in *. unfold by_created_at_desc. by rewrite decide_True by lia.
Qed.

Lemma sort_insert_filter x l :
  StronglySorted (λ a b, ev_created_at b ≤ ev_created_at a) l →
  filter P (sort_insert by_created_at_desc x l) =
    if decide (P x) then sort_insert by_created_at_desc x (filter P l) else filter P l.
Proof.
  induction l as [|y l IH]; intros Hs.
  - simpl. rewrite filter_cons, filter_nil. by case_decide.
  - apply StronglySorted_cons in Hs as [Hy Hs]. specialize (IH Hs).
    cbn [sort_insert]. unfold by_created_at_desc at 1.
    destruct (decide (ev_created_at y - ev_created_at x ≤ 0)) as [Hc|Hc].
    + rewrite (filter_cons P x). case_decide; [|done].
      rewrite sort_insert_head; [done|].
      apply Forall_forall. intros z Hz. apply list_elem_of_filter in Hz as [_ Hz].
      apply elem_of_cons in Hz as [->|Hz]; [lia|].
      rewrite Forall_forall in Hy. specialize (Hy z Hz). simpl in Hy. lia.
    + rewrite (filter_cons P y), IH, (filter_cons P y).
      destruct (decide (P y)); destruct (decide (P x)); try done.
      cbn [sort_insert].
      by rewrite (decide_False (P := by_created_at_desc x y ≤ 0))
        by (unfold by_created_at_desc; lia).
Qed.

(** Filtering commutes with the sort. *)
Lemma Array_sort_filter l :
  filter P (Array_sort by_created_at_desc l) = Array_sort by_created_at_desc (filter P l).
Proof.
  induction l as [|x l IH]; [done|].
  cbn [Array_sort foldr]. rewrite sort_insert_filter by apply Array_sort_sorted.
  fold (Array_sort by_created_at_desc l). rewrite IH, filter_cons.
  by case_decide.
Qed.
End sort_filter_facts.

Lemma omap_get_filter {V} (m : list (string * V)) (Q : V → bool) (ids : list string) :
  omap (λ id, Map_get id m)
       (filter (λ id, match Map_get id m with Some v => Q v | None => false end = true) ids)
  = filter (λ v, Q v = true) (omap (λ id, Map_get id m) ids).
Proof.
  induction ids as [|id ids IH]; [done|].
  rewrite filter_cons. cbn [omap list_omap].
  destruct (Map_get id m) as [v|] eqn:E.
  - rewrite filter_cons. destruct (Q v) eqn:EQ.
    + rewrite !decide_True by done. cbn [omap list_omap]. by rewrite E, IH.
    + rewrite !decide_False by done. done.
  - rewrite decide_False by done. done.
Qed.

Section getEventsByTab_more.
Import DataStore.
Variable verifyEvent : Event → bool.
Implicit Types (st : DataStore.t).

(** ** The [flowgazerOnly] option only removes events *)

(** On every tab but likes, the result with [flowgazerOnly] is the result
    without it with the events that are not flowgazer posts taken out, the
    others in the same order; on the likes tab the option changes nothing. *)
Theorem getEventsByTab_flowgazerOnly tab st :
  getEventsByTab tab true st =
    if decide (tab = "likes") then getEventsByTab tab false st
    else filter (λ ev, is_flowgazer_post ev = true) (getEventsByTab tab false st).
Proof.
  destruct (decide (tab = "likes")) as [Hl|Hl]; unfold getEventsByTab.
  - rewrite (bool_decide_eq_true_2 (tab = "likes")) by done. done.
  - rewrite (bool_decide_eq_false_2 (tab = "likes")) by done. simpl.
    destruct (if decide (tab = "global") then _ else _) as [ids|]; [|done].
    rewrite Array_sort_filter. f_equal. apply omap_get_filter.
Qed.

Lemma Map_get_Some_iff st id ev :
  wf verifyEvent st →
  Map_get id (events st) = Some ev ↔ ev ∈ Map_values (events st) ∧ ev_id ev = id.
Proof.
  intros Hwf. split.
  - intros Hget. split; [|by apply (stored_id verifyEvent st Hwf)].
    apply Map_get_Some_elem_of in Hget. unfold Map_values.
    apply list_elem_of_fmap. by exists (id, ev).
  - intros [Hin <-]. unfold Map_values in Hin.
    apply list_elem_of_fmap in Hin as [[k e] [-> Hin]]. simpl.
    destruct Hwf as [Hk Hids _ _ _ _]. rewrite Forall_forall in Hids.
    pose proof (Hids _ Hin) as Hid. simpl in Hid. rewrite Hid.
    by apply Map_get_elem_of.
Qed.

Lemma stored_id_key st ev :
  wf verifyEvent st → ev ∈ Map_values (events st) → ev_id ev ∈ Map_keys (events st).
Proof.
  intros Hwf Hin. apply Map_has_true. unfold Map_has.
  by rewrite (proj2 (Map_get_Some_iff st (ev_id ev) ev Hwf) (conj Hin eq_refl)).
Qed.

(** ** What the four tabs return *)

(** After any sequence of calls on a fresh store, without [flowgazerOnly]:
    the global tab returns exactly the stored notes and reposts; the
    following tab those of them whose author is in the follow list as it is
    at the time of the query; the myposts and likes tabs the stored events
    whose ids are in [myPostIds] and [receivedLikeIds], which are notes and
    reactions respectively; any other tab name returns nothing. *)
Theorem getEventsByTab_contents ops now_ms ev :
  let st := run verifyEvent ops (new now_ms) in
  (ev ∈ getEventsByTab "global" false st ↔
     ev ∈ Map_values (events st) ∧ (ev_kind ev = 1 ∨ ev_kind ev = 6)) ∧
  (ev ∈ getEventsByTab "following" false st ↔
     ev ∈ Map_values (events st) ∧ (ev_kind ev = 1 ∨ ev_kind ev = 6) ∧
     ev_pubkey ev ∈ followingPubkeys st) ∧
  (ev ∈ getEventsByTab "myposts" false st ↔
     ev ∈ Map_values (events st) ∧ ev_id ev ∈ myPostIds st ∧ ev_kind ev = 1) ∧
  (ev ∈ getEventsByTab "likes" false st ↔
     ev ∈ Map_values (events st) ∧ ev_id ev ∈ receivedLikeIds st ∧ ev_kind ev = 7) ∧
  (∀ tab, tab ∉ ["global"; "following"; "myposts"; "likes"] →
     getEventsByTab tab false st = []).
Proof.
  intros st.
  pose proof (DataStore_wf_run verifyEvent ops _ (DataStore_wf_new verifyEvent now_ms)) as Hwf.
  fold st in Hwf.
  destruct (DataStore_run_invariant verifyEvent wf_categories
              DataStore_wf_categories_new (DataStore_wf_categories_step verifyEvent)
              ops now_ms) as [Hm Hl _].
  fold st in Hm, Hl.
  unfold getEventsByTab. simpl.
  rewrite !Array_sort_Permutation, !list_elem_of_omap.
  split_and!.
  - split.
    + intros (id & Hid & Hget). apply list_elem_of_filter in Hid as [Hp _].
      rewrite Hget in Hp. apply bool_decide_eq_true in Hp.
      split; [|done]. by apply (Map_get_Some_iff st id ev Hwf).
    + intros [Hin Hk]. exists (ev_id ev).
      pose proof (proj2 (Map_get_Some_iff st (ev_id ev) ev Hwf) (conj Hin eq_refl)) as Hget.
      split; [|done]. apply list_elem_of_filter. rewrite Hget.
      split; [by apply bool_decide_eq_true | by apply stored_id_key].
  - split.
    + intros (id & Hid & Hget). apply list_elem_of_filter in Hid as [Hp _].
      rewrite Hget in Hp. apply andb_true_iff in Hp as [Hp Hf].
      apply bool_decide_eq_true in Hp. apply bool_decide_eq_true in Hf.
      split_and!; [|done|done]. by apply (Map_get_Some_iff st id ev Hwf).
    + intros (Hin & Hk & Hf). exists (ev_id ev).
      pose proof (proj2 (Map_get_Some_iff st (ev_id ev) ev Hwf) (conj Hin eq_refl)) as Hget.
      split; [|done]. apply list_elem_of_filter. rewrite Hget.
      split; [|by apply stored_id_key].
      apply andb_true_iff. split; by apply bool_decide_eq_true.
  - split.
    + intros (id & Hid & Hget).
      apply (Map_get_Some_iff st id ev Hwf) in Hget as Hge. destruct Hge as [Hin <-].
      split_and!; [done|done|].
      destruct (Hm _ Hid) as (ev' & Hget' & Hk). congruence.
    + intros (Hin & Hid & _). exists (ev_id ev). split; [done|].
      by apply (Map_get_Some_iff st (ev_id ev) ev Hwf).
  - split.
    + intros (id & Hid & Hget).
      apply (Map_get_Some_iff st id ev Hwf) in Hget as Hge. destruct Hge as [Hin <-].
      split_and!; [done|done|].
      destruct (Hl _ Hid) as (ev' & Hget' & Hk). congruence.
    + intros (Hin & Hid & _). exists (ev_id ev). split; [done|].
      by apply (Map_get_Some_iff st (ev_id ev) ev Hwf).
  - intros tab Hnot. rewrite !not_elem_of_cons in Hnot.
    destruct Hnot as (H1 & H2 & H3 & H4 & _).
    by rewrite !decide_False by done.
Qed.
End getEventsByTab_more.

(** ** The narrowing options of [getVisibleEvents] only remove events *)

(** Whatever the options, the result is the result without options with the
    events the narrowing does not admit taken out, the others in the same
    order. *)
Theorem getVisibleEvents_narrowing ds tab opts st :
  ViewState.getVisibleEvents ds tab opts st =
    filter (λ ev, ViewState.admits tab opts ev = true)
           (ViewState.getVisibleEvents ds tab ViewState.no_filter st).
Proof.
  rewrite !getVisibleEvents_alt, Array_sort_filter, list_filter_filter.
  f_equal. apply list_filter_iff. intros ev.
  unfold ViewState.admits at 3. simpl. tauto.
Qed.

(** ** Display names *)

Lemma substring_prefix n : ∀ s, String.prefix (String.substring 0 n s) s = true.
Proof.
  induction n as [|n IH]; intros [|c s]; simpl; try done.
  rewrite IH. by destruct (Ascii.ascii_dec c c).
Qed.

Lemma substring_length n : ∀ s,
  String.length (String.substring 0 n s) = Nat.min n (String.length s).
Proof. induction n as [|n IH]; intros [|c s]; simpl; try done. by rewrite IH. Qed.

(** [getDisplayName] returns the profile's name when the profile has a
    non-empty one; otherwise it returns a prefix of the pubkey, of 8
    characters or the whole pubkey if that is shorter. *)
Theorem getDisplayName_cases pubkey st :
  let name := DataStore.getDisplayName pubkey st in
  (∃ profile, DataStore.profiles st !! pubkey = Some profile ∧
              p_fields profile !! "name" = Some name ∧ name ≠ "") ∨
  (String.prefix name pubkey = true ∧
   String.length name = Nat.min 8 (String.length pubkey)).
Proof.
  unfold DataStore.getDisplayName.
  destruct (DataStore.profiles st !! pubkey) as [profile|];
    [destruct (p_fields profile !! "name") as [n|] eqn:E; [case_decide|]|];
    try (right; split; [apply substring_prefix | apply substring_length]).
  left. by exists profile.
Qed.

Lemma getEventsByTab_contents_witness :
  let st := DataStore.run sample_verify
              [DataStore.AddEvent None note1; DataStore.AddEvent None (reaction "r1" "bob" "e1" 11)]
              (DataStore.new 5000) in
  note1 ∈ DataStore.getEventsByTab "global" false st ∧
  DataStore.getEventsByTab "archive" false st = [].
Proof.
  intros st.
  destruct (getEventsByTab_contents sample_verify
              [DataStore.AddEvent None note1; DataStore.AddEvent None (reaction "r1" "bob" "e1" 11)]
              5000 note1) as (H1 & _ & _ & _ & H5).
  split.
  - apply H1. split; [|by left]. apply (bool_decide_unpack _). vm_compute. exact I.
  - apply H5. apply (bool_decide_unpack _). vm_compute. exact I.
Defined.
